(** * GitHub deployment environments: the reconciler of
      [asfyaml/feature/github/deployment_environments.py]

    The directive reads the [environments] entry of the [github] section of
    [.asf.yaml] (the desired state) and converges the repository's deployment
    environments and their deployment branch policies towards it.

    The embedding follows the Python source function by function.  Python
    dictionaries read with [.get] become records of optional fields, the
    desired-state dictionary becomes an association list in insertion order,
    and the side effects (PyGithub calls and [requests] calls) are threaded
    through a state-and-exception monad over a model of the remote.  Progress
    lines written with [print] are not modelled. *)

From stdpp Require Import base option list gmap strings.

Local Open Scope string_scope.
Local Open Scope list_scope.
Local Open Scope Z_scope.

(** ** Python values *)

(** Truth value testing ([if x], [not x], [x and y]).  [None], [False] and
    empty containers are false. *)
Class Truthy (A : Type) := truthy : A → bool.
Global Hint Mode Truthy ! : typeclass_instances.

Global Instance truthy_bool : Truthy bool := λ b, b.
Global Instance truthy_list {A} : Truthy (list A) :=
  λ l, match l with [] => false | _ :: _ => true end.
Global Instance truthy_string : Truthy string :=
  λ s, match s with EmptyString => false | String _ _ => true end.
Global Instance truthy_option {A} `{Truthy A} : Truthy (option A) :=
  λ o, match o with None => false | Some x => truthy x end.

(** A dictionary with string keys, in insertion order.  Python keeps the keys
    unique; the statements that depend on it assume [NoDup (keys d)]. *)
Definition dict (V : Type) : Type := list (string * V).

Definition keys {V} (d : dict V) : list string := d.*1.
Definition items {V} (d : dict V) : list (string * V) := d.

Fixpoint get {V} (d : dict V) (k : string) : option V :=
  match d with
  | [] => None
  | (k', v) :: d' => if decide (k' = k) then Some v else get d' k
  end.

(** ** The desired state (data model of the [environments] entry) *)

(** A reviewer is identified by a numeric id or by a user name. *)
Inductive identifier :=
| UserId (n : Z)
| Username (login : string).

Record reviewer := {
  reviewer_type : string;
  reviewer_id : identifier
}.

Record policy := { policy_name : string }.

Record branch_policy_config := {
  protected_branches : option bool;
  custom_branch_policies : option bool;
  policies : option (list policy)
}.

Record env_config := {
  required_reviewers : option (list reviewer);
  prevent_self_review : option bool;
  wait_timer : option Z;
  deployment_branch_policy : option branch_policy_config
}.

Global Instance identifier_eq_dec : EqDecision identifier.
Proof. solve_decision. Defined.
Global Instance reviewer_eq_dec : EqDecision reviewer.
Proof. solve_decision. Defined.
Global Instance policy_eq_dec : EqDecision policy.
Proof. solve_decision. Defined.

(** [env_config.get("deployment_branch_policy", {}).get(key)] *)
Definition branch_policy_get {A} (key : branch_policy_config → option A)
    (env_config : env_config) : option A :=
  deployment_branch_policy env_config ≫= key.

(** ** Validation of the desired state *)

Record config_error := { env : string; error : string }.

Global Instance config_error_eq_dec : EqDecision config_error.
Proof. solve_decision. Defined.

Definition reviewers_missing_message : string :=
  "required_reviewers is missing, minimum 1 reviewer is required".
Definition too_many_reviewers_message : string :=
  "required_reviewers cannot be more than 6 reviewers".
Definition both_modes_message : string :=
  "protected_branches and custom_branch_policies cannot be enabled at the same time, set one of them to false".
Definition policies_missing_message : string :=
  "Policies is missing, when custom_branch_policies is enabled, minimum 1 policy is required".

(** The body of the loop of [validate_environment_configs]: the checks made
    for one environment, each appending to the list of errors found so far. *)
Definition validate_environment_config
    (environment_config_errors : list config_error)
    (env_name : string) (env_config : env_config) : list config_error :=
  let errors := environment_config_errors in
  let errors :=
    if negb (truthy (required_reviewers env_config))
    then errors ++ [ {| env := env_name; error := reviewers_missing_message |} ]
    else errors in
  let errors :=
    if bool_decide (6 < length (default [] (required_reviewers env_config)))%nat
    then errors ++ [ {| env := env_name; error := too_many_reviewers_message |} ]
    else errors in
  let is_custom_branch_policies :=
    branch_policy_get custom_branch_policies env_config in
  let is_protected_branches :=
    branch_policy_get protected_branches env_config in
  let errors :=
    if truthy is_custom_branch_policies && truthy is_protected_branches
    then errors ++ [ {| env := env_name; error := both_modes_message |} ]
    else errors in
  let errors :=
    if truthy is_custom_branch_policies
       && negb (truthy (branch_policy_get policies env_config))
    then errors ++ [ {| env := env_name; error := policies_missing_message |} ]
    else errors in
  errors.

Definition validate_environment_configs (environments : dict env_config)
    : list config_error :=
  foldl (λ errors '(env_name, env_config),
           validate_environment_config errors env_name env_config)
        [] (items environments).

(** ** The remote: GitHub as seen through PyGithub and [requests] *)

(** [ReviewerParams] and [EnvironmentDeploymentBranchPolicyParams]. *)
Record ReviewerParams := { type_ : string; id_ : Z }.

Record EnvironmentDeploymentBranchPolicyParams := {
  protected_branches_ : bool;
  custom_branch_policies_ : bool
}.

(** One entry of the [branch_policies] list of the remote. *)
Record branch_policy := { bp_id : Z; bp_name : string }.

(** What the code reads of an HTTP response: the status code and, of the JSON
    body, the entries [message] and [branch_policies] when they are there. *)
Record response := {
  status_code : Z;
  message : option string;
  branch_policies : option (list branch_policy)
}.

(** The calls that reach the remote, with their arguments. *)
Inductive call :=
| GetUser (login : string)
| CreateEnvironment (environment_name : string) (wait : Z)
    (reviewers : list ReviewerParams)
    (branch_policy_params : EnvironmentDeploymentBranchPolicyParams)
| GetEnvironments
| DeleteEnvironment (environment_name : string)
| PostBranchPolicy (repo_name token env_name : string) (json : policy)
| GetBranchPolicies (repo_name token env_name : string)
| DeleteBranchPolicy (repo_name token env_name : string) (policy_id : Z).

(** The settings the remote keeps for an environment: those the create-or-update
    call sends. *)
Record environment := {
  environment_wait_timer : Z;
  environment_reviewers : list ReviewerParams;
  environment_branch_policy : EnvironmentDeploymentBranchPolicyParams
}.

(** The state of the remote: the environments of the repository by name, and
    the calls received so far, oldest first. *)
Record remote := {
  remote_environments : gmap string environment;
  calls : list call
}.

Definition received_all (cs : list call) (r : remote) : remote :=
  {| remote_environments := remote_environments r; calls := calls r ++ cs |}.

Definition received (c : call) (r : remote) : remote := received_all [c] r.

Definition with_environments (f : gmap string environment → gmap string environment)
    (r : remote) : remote :=
  {| remote_environments := f (remote_environments r); calls := calls r |}.

(** ** Exceptions and the monad of the directive *)

Inductive exn :=
| InvalidEnvironmentConfigurations (errors : list config_error)
| RequestError (msg : option string) (code : Z)
| UnknownObjectException (login : string)
| TypeError
| AttributeError
| FileNotFoundError
| AssertionError.

Inductive outcome (A : Type) :=
| Returned (x : A)
| Raised (e : exn).
Arguments Returned {A} x.
Arguments Raised {A} e.

Definition M (A : Type) : Type := remote → outcome A * remote.

Global Instance M_ret : MRet M := λ A x r, (Returned x, r).
Global Instance M_bind : MBind M := λ A B f m r,
  match m r with
  | (Returned x, r') => f x r'
  | (Raised e, r') => (Raised e, r')
  end.

Definition raise {A} (e : exn) : M A := λ r, (Raised e, r).

(** [for x in l: body x] *)
Fixpoint for_each {A} (l : list A) (body : A → M unit) : M unit :=
  match l with
  | [] => mret ()
  | x :: l' => body x;; for_each l' body
  end.

(** [[f x for x in l]] where [f] has effects *)
Fixpoint comprehension {A B} (f : A → M B) (l : list A) : M (list B) :=
  match l with
  | [] => mret []
  | x :: l' => y ← f x; ys ← comprehension f l'; mret (y :: ys)
  end.

(** The instance of the feature the directive runs on: what it reads of
    [self] and of the process environment. *)
Record feature := {
  yaml_environments : option (dict env_config);
  noop : bool;
  repository_name : string;
  GH_TOKEN : option string;
  GH_TOKEN_FILE : option string
}.

Section Reconciler.

(** The user directory of the remote: the numeric id behind a login. *)
Variable users : string → option Z.

(** The HTTP transport: the response to a request, which may depend on the
    calls the remote has received before. *)
Variable transport : list call → call → response.

(** *** Primitive calls *)

(** [gh_session.get_user(login).id] *)
Definition get_user (login : string) : M Z := λ r,
  match users login with
  | Some n => (Returned n, received (GetUser login) r)
  | None => (Raised (UnknownObjectException login), received (GetUser login) r)
  end.

(** [gh_repo.create_environment(...)]: creates the environment or overwrites
    its settings. *)
Definition create_environment (environment_name : string) (wait : Z)
    (reviewers : list ReviewerParams)
    (params : EnvironmentDeploymentBranchPolicyParams) : M unit := λ r,
  (Returned (),
   with_environments
     (insert environment_name
        {| environment_wait_timer := wait;
           environment_reviewers := reviewers;
           environment_branch_policy := params |})
     (received (CreateEnvironment environment_name wait reviewers params) r)).

(** [gh_repo.get_environments()] *)
Definition get_environments : M (list (string * environment)) := λ r,
  (Returned (map_to_list (remote_environments r)), received GetEnvironments r).

(** [gh_repo.delete_environment(name)] *)
Definition delete_environment (environment_name : string) : M unit := λ r,
  (Returned (),
   with_environments (delete environment_name)
     (received (DeleteEnvironment environment_name) r)).

(** [requests.post], [requests.get] and [requests.delete] *)
Definition request (c : call) : M response := λ r,
  (Returned (transport (calls r) c), received c r).

(** *** The functions of the module *)

Definition get_user_id (username : identifier) : M Z :=
  match username with
  | UserId n => mret n
  | Username login => get_user login
  end.

Definition create_deployment_environment (env_name : string)
    (env_config : env_config) : M unit :=
  let required_reviewers := required_reviewers env_config in
  let prevent_self_review := default true (prevent_self_review env_config) in
  let wait_timer := default 5 (wait_timer env_config) in
  let deployment_branch_policy :=
    {| protected_branches_ :=
         default true (branch_policy_get protected_branches env_config);
       custom_branch_policies_ :=
         default false (branch_policy_get custom_branch_policies env_config) |} in
  required_reviewers_with_id ←
    match required_reviewers with
    | None => raise TypeError
    | Some reviewers =>
        comprehension
          (λ reviewer,
             user_id ← get_user_id (reviewer_id reviewer);
             mret {| type_ := reviewer_type reviewer; id_ := user_id |})
          reviewers
    end;
  create_environment env_name wait_timer required_reviewers_with_id
    deployment_branch_policy.

Definition accepted (rsp : response) : bool :=
  bool_decide (200 ≤ status_code rsp ≤ 303).

(** Lines 101-116, the body of the loop: post one policy and check the status
    of the response. *)
Definition post_branch_policy (repo_name token env_name : string)
    (policy : policy) : M unit :=
  rsp ← request (PostBranchPolicy repo_name token env_name policy);
  if negb (accepted rsp)
  then raise (RequestError (message rsp) (status_code rsp))
  else mret ().

Definition create_deployment_branch_policy (repo_name token env_name : string)
    (deployment_branch_policies : option (list policy)) : M unit :=
  if negb (truthy deployment_branch_policies) then mret ()
  else
    for_each (default [] deployment_branch_policies)
      (post_branch_policy repo_name token env_name).

Definition get_deployment_policies (repo_name token environment_name : string)
    : M (list branch_policy) :=
  rsp ← request (GetBranchPolicies repo_name token environment_name);
  mret (default [] (branch_policies rsp)).

Definition validate_204_response (rsp : response) : M unit :=
  if bool_decide (status_code rsp ≠ 204)
  then raise (RequestError (message rsp) (status_code rsp))
  else mret ().

Definition delete_deployment_branch_policy (repo_name token env_name : string)
    (policy_id : Z) : M unit :=
  rsp ← request (DeleteBranchPolicy repo_name token env_name policy_id);
  validate_204_response rsp.

(** *** The directive, pass by pass *)

(** Lines 168-184: validate, then create or update every environment of the
    file and, in custom mode, create its branch policies. *)
Definition upsert_pass (repo_name gh_token : string)
    (environments : dict env_config) : M unit :=
  if truthy environments then
    let config_environment_errors := validate_environment_configs environments in
    if truthy config_environment_errors
    then raise (InvalidEnvironmentConfigurations config_environment_errors)
    else
      for_each (items environments) (λ '(env_name, env_config),
        create_deployment_environment env_name env_config;;
        if truthy (branch_policy_get custom_branch_policies env_config)
        then create_deployment_branch_policy repo_name gh_token env_name
               (branch_policy_get policies env_config)
        else mret ())
  else mret ().

(** Lines 188-201: delete the environments of the repository that the file
    does not name. *)
Definition environments_to_be_removed (repo_environment_names : list string)
    (environments : dict env_config) : list string :=
  if truthy environments
  then elements
         ((list_to_set repo_environment_names : gset string)
            ∖ list_to_set (keys environments))
  else repo_environment_names.

Definition environment_deletion_pass (environments : dict env_config) : M unit :=
  repo_environments ← get_environments;
  let repo_environment_names := repo_environments.*1 in
  for_each (environments_to_be_removed repo_environment_names environments)
    delete_environment.

(** Lines 234-242, the body of the inner loop: delete a remote branch policy
    when its name is not among the names of the file. *)
Definition delete_if_stale (repo_name gh_token : string)
    (asf_config_environment_policy_names : list string) (env_name : string)
    (repo_deployment_branch_policy : branch_policy) : M unit :=
  let repo_deployment_branch_policy_name :=
    bp_name repo_deployment_branch_policy in
  if bool_decide (repo_deployment_branch_policy_name
                    ∉ asf_config_environment_policy_names)
  then delete_deployment_branch_policy repo_name gh_token env_name
         (bp_id repo_deployment_branch_policy)
  else mret ().

(** Lines 213-242, the body of the loop: delete the remote branch policies of
    one environment whose names the file does not list. *)
Definition delete_stale_branch_policies (repo_name gh_token : string)
    (environments : dict env_config) (env_name : string) : M unit :=
  match get environments env_name with
  | None => raise AttributeError
  | Some env_config =>
      let is_protected_branches :=
        branch_policy_get protected_branches env_config in
      if truthy is_protected_branches then mret ()
      else
        repo_deployment_branch_policies ←
          get_deployment_policies repo_name gh_token env_name;
        let asf_config_environment_policies :=
          default [] (branch_policy_get policies env_config) in
        let asf_config_environment_policy_names :=
          policy_name <$> asf_config_environment_policies in
        for_each repo_deployment_branch_policies
          (delete_if_stale repo_name gh_token
             asf_config_environment_policy_names env_name)
  end.

(** Lines 210-242. *)
Definition branch_policy_deletion_pass (repo_name gh_token : string)
    (environments : dict env_config) : M unit :=
  if truthy environments then
    let environment_names := keys environments in
    for_each environment_names
      (delete_stale_branch_policies repo_name gh_token environments)
  else mret ().

(** Lines 168-242: the reconciliation proper, once the token is known.
    [entry] is the [environments] entry of the file, [None] when the file
    has no such key. *)
Definition reconcile (repo_name gh_token : string)
    (entry : option (dict env_config)) : M unit :=
  let environments := default [] entry in
  upsert_pass repo_name gh_token environments;;
  if bool_decide (is_Some entry) then
    environment_deletion_pass environments;;
    branch_policy_deletion_pass repo_name gh_token environments
  else mret ().

(** Line 166, [pygithub.Github(auth=pygithubAuth.Token(gh_token))]: the
    token of a session is not empty, [github.Auth.Token] asserts it.  Opening
    the session makes no call. *)
Definition Token (token : string) : M unit :=
  if truthy token then mret () else raise AssertionError.

Definition deployment_environments (self : feature) : M unit :=
  if noop self then mret ()
  else
    let repo_name := repository_name self in
    gh_token ←
      (if negb (truthy (GH_TOKEN self))
       then match GH_TOKEN_FILE self with
            | Some content => mret content
            | None => raise FileNotFoundError
            end
       else mret (default "" (GH_TOKEN self)));
    Token gh_token;;
    reconcile repo_name gh_token (yaml_environments self).

End Reconciler.

(** ** The rules of the validator, as the specification words them *)

Inductive rule :=
| ReviewersPresent      (* (a) required_reviewers present and non-empty *)
| AtMostSixReviewers    (* (b) required_reviewers count at most 6 *)
| ExclusiveModes        (* (c) not both protected_branches and custom_branch_policies *)
| PoliciesPresent.      (* (d) custom_branch_policies needs a non-empty policies *)

Global Instance rule_eq_dec : EqDecision rule.
Proof. solve_decision. Defined.

Definition rules : list rule :=
  [ReviewersPresent; AtMostSixReviewers; ExclusiveModes; PoliciesPresent].

Definition rule_message (ru : rule) : string :=
  match ru with
  | ReviewersPresent => reviewers_missing_message
  | AtMostSixReviewers => too_many_reviewers_message
  | ExclusiveModes => both_modes_message
  | PoliciesPresent => policies_missing_message
  end.

Definition flag_set (flag : branch_policy_config → option bool)
    (c : env_config) : bool :=
  match deployment_branch_policy c with
  | Some bp => bool_decide (flag bp = Some true)
  | None => false
  end.

Definition violates (ru : rule) (c : env_config) : bool :=
  match ru with
  | ReviewersPresent =>
      match required_reviewers c with
      | None | Some [] => true
      | Some (_ :: _) => false
      end
  | AtMostSixReviewers =>
      match required_reviewers c with
      | None => false
      | Some reviewers => bool_decide (6 < length reviewers)%nat
      end
  | ExclusiveModes =>
      flag_set protected_branches c && flag_set custom_branch_policies c
  | PoliciesPresent =>
      flag_set custom_branch_policies c &&
      match deployment_branch_policy c with
      | Some {| policies := Some (_ :: _) |} => false
      | _ => true
      end
  end.

Definition violation (env_name : string) (ru : rule) : config_error :=
  {| env := env_name; error := rule_message ru |}.

(** The entries one environment contributes: one per violated rule. *)
Definition violations (env_name : string) (c : env_config) : list config_error :=
  violation env_name <$> filter (λ ru, violates ru c = true) rules.

(** ** Expected calls of the passes, as the specification words them *)

(** The reviewer ids after resolution, and the lookups it takes. *)
Definition resolved (users : string → option Z) (i : identifier) : option Z :=
  match i with
  | UserId n => Some n
  | Username login => users login
  end.

Definition reviewer_params (rv : reviewer) (user_id : Z) : ReviewerParams :=
  {| type_ := reviewer_type rv; id_ := user_id |}.

Definition lookups (reviewers : list reviewer) : list call :=
  omap (λ rv, match reviewer_id rv with
              | UserId _ => None
              | Username login => Some (GetUser login)
              end) reviewers.

(** [stale = remote_policy_names - desired_policy_names], by name; the ids of
    the stale policies of the remote. *)
Definition desired_policy_names (c : env_config) : list string :=
  match deployment_branch_policy c with
  | Some {| policies := Some ps |} => policy_name <$> ps
  | _ => []
  end.

Definition stale_policy_ids (c : env_config) (remote_policies : list branch_policy)
    : list Z :=
  bp_id <$> filter (λ p, bp_name p ∉ desired_policy_names c) remote_policies.

Definition protected_mode (c : env_config) : Prop :=
  ∃ bp, deployment_branch_policy c = Some bp ∧ protected_branches bp = Some true.

Global Instance protected_mode_dec c : Decision (protected_mode c).
Proof.
  unfold protected_mode. destruct (deployment_branch_policy c) as [bp|].
  - destruct (decide (protected_branches bp = Some true)) as [E|N].
    + left. eauto.
    + right. intros (bp' & [= <-] & ?). done.
  - right. intros (bp' & [=] & ?).
Defined.

Section Expected.

Variable transport : list call → call → response.

(** The branch policies the remote reports for an environment when asked
    after the calls of [history]. *)
Definition fetched (history : list call) (repo_name token env_name : string)
    : list branch_policy :=
  default []
    (branch_policies
       (transport history (GetBranchPolicies repo_name token env_name))).

(** The calls of the branch policy deletion pass for one environment:
    none in protected mode, else the fetch followed by the deletion of each
    stale policy by id. *)
Definition stale_policy_calls (history : list call)
    (repo_name token env_name : string) (c : env_config) : list call :=
  if decide (protected_mode c) then []
  else GetBranchPolicies repo_name token env_name ::
         (DeleteBranchPolicy repo_name token env_name
            <$> stale_policy_ids c (fetched history repo_name token env_name)).

(** The calls of the whole pass, environment after environment in the order
    of the file. *)
Fixpoint deletion_pass_calls (history : list call) (repo_name token : string)
    (environments : dict env_config) : list call :=
  match environments with
  | [] => []
  | (env_name, c) :: rest =>
      let cs := stale_policy_calls history repo_name token env_name c in
      cs ++ deletion_pass_calls (history ++ cs) repo_name token rest
  end.

(** Every deletion of the list is answered with status 204, each asked after
    the ones before it. *)
Fixpoint deletions_succeed (history : list call)
    (repo_name token env_name : string) (ids : list Z) : Prop :=
  match ids with
  | [] => True
  | i :: ids' =>
      let c := DeleteBranchPolicy repo_name token env_name i in
      status_code (transport history c) = 204
      ∧ deletions_succeed (history ++ [c]) repo_name token env_name ids'
  end.

(** The remote answers every deletion of a branch policy with status 204. *)
Definition accepts_deletions : Prop :=
  ∀ history repo_name token env_name i,
    status_code
      (transport history (DeleteBranchPolicy repo_name token env_name i)) = 204.

(** Every creation of the list is answered with a status in [200, 303],
    each asked after the ones before it. *)
Fixpoint creations_succeed (history : list call)
    (repo_name token env_name : string) (ps : list policy) : Prop :=
  match ps with
  | [] => True
  | p :: ps' =>
      let c := PostBranchPolicy repo_name token env_name p in
      200 ≤ status_code (transport history c) ≤ 303
      ∧ creations_succeed (history ++ [c]) repo_name token env_name ps'
  end.

End Expected.

(** ** What a computation may do to the remote *)

(** [m] takes every remote to a remote related to it by [R], whether it
    returns or raises. *)
Definition steps (R : relation remote) {A} (m : M A) : Prop :=
  ∀ r, R r (m r).2.

(** The calls received since are all of the kind [P]. *)
Definition calls_added (P : call → Prop) : relation remote :=
  λ r r', ∃ cs, calls r' = calls r ++ cs ∧ Forall P cs.

Definition same_environments : relation remote :=
  λ r r', remote_environments r' = remote_environments r.

(** No environment has gone. *)
Definition environments_kept : relation remote :=
  λ r r', dom (remote_environments r) ⊆ dom (remote_environments r').

(** The calls of the upsert pass: lookups of reviewers the file names by user
    name, creations or updates of environments of the file, and creations of
    policies the file lists for an environment in custom mode. *)
Definition upsert_pass_call (repo_name token : string)
    (desired : dict env_config) (c : call) : Prop :=
  match c with
  | GetUser login =>
      ∃ env_name cfg reviewers rv,
        (env_name, cfg) ∈ desired ∧ required_reviewers cfg = Some reviewers
        ∧ rv ∈ reviewers ∧ reviewer_id rv = Username login
  | CreateEnvironment env_name _ _ _ => env_name ∈ keys desired
  | PostBranchPolicy repo_name' token' env_name p =>
      repo_name' = repo_name ∧ token' = token
      ∧ ∃ cfg ps,
          (env_name, cfg) ∈ desired
          ∧ flag_set custom_branch_policies cfg = true
          ∧ branch_policy_get policies cfg = Some ps ∧ p ∈ ps
  | _ => False
  end.

(** The calls of the branch policy deletion pass: fetches and deletions for
    environments of the file that are not in protected mode. *)
Definition policy_deletion_call (repo_name token : string)
    (desired : dict env_config) (c : call) : Prop :=
  match c with
  | GetBranchPolicies repo_name' token' env_name
  | DeleteBranchPolicy repo_name' token' env_name _ =>
      repo_name' = repo_name ∧ token' = token
      ∧ ∃ cfg, get desired env_name = Some cfg ∧ ¬ protected_mode cfg
  | _ => False
  end.

(** An HTTP request names this repository and carries this token. *)
Definition request_with (repo_name token : string) (c : call) : Prop :=
  match c with
  | PostBranchPolicy repo_name' token' _ _
  | GetBranchPolicies repo_name' token' _
  | DeleteBranchPolicy repo_name' token' _ _ =>
      repo_name' = repo_name ∧ token' = token
  | _ => True
  end.

(** Every exception [m] raises is of the kind [E]. *)
Definition raises_only (E : exn → Prop) {A} (m : M A) : Prop :=
  ∀ r e r', m r = (Raised e, r') → E e.

(** What the code of the reconciliation decides about its exceptions: a list
    of violations is the one the validator returned, and is not empty; and no
    exception comes from iterating over a missing list of reviewers
    ([TypeError]) or from reading a missing configuration ([AttributeError]).
    Nothing is said of the other exceptions. *)
Definition reconcile_exception (desired : dict env_config) (e : exn) : Prop :=
  match e with
  | InvalidEnvironmentConfigurations errors =>
      errors = validate_environment_configs desired ∧ errors ≠ []
  | TypeError | AttributeError => False
  | _ => True
  end.

(** The token the directive uses: the environment variable when it is set and
    not empty, else the content of the token file ([GH_TOKEN_FILE] holds it
    stripped of the white space around it, [None] when the file cannot be
    opened). *)
Definition resolved_token (self : feature) : option string :=
  if truthy (GH_TOKEN self) then GH_TOKEN self else GH_TOKEN_FILE self.

(** A configuration that breaks none of the four rules. *)
Definition valid_config (c : env_config) : Prop :=
  (∃ reviewers,
     required_reviewers c = Some reviewers ∧ (1 ≤ length reviewers ≤ 6)%nat)
  ∧ ¬ (flag_set protected_branches c = true
       ∧ flag_set custom_branch_policies c = true)
  ∧ (flag_set custom_branch_policies c = true →
     ∃ p ps, branch_policy_get policies c = Some (p :: ps)).

(** The settings an upsert leaves on the remote for a configuration whose
    reviewers resolve to [ids]. *)
Definition upserted_settings (c : env_config) (ids : list Z) : environment :=
  {| environment_wait_timer := default 5 (wait_timer c);
     environment_reviewers :=
       zip_with reviewer_params (default [] (required_reviewers c)) ids;
     environment_branch_policy :=
       {| protected_branches_ :=
            default true (branch_policy_get protected_branches c);
          custom_branch_policies_ :=
            default false (branch_policy_get custom_branch_policies c) |} |}.

Definition with_prevent_self_review (v : option bool) (c : env_config)
    : env_config :=
  {| required_reviewers := required_reviewers c;
     prevent_self_review := v;
     wait_timer := wait_timer c;
     deployment_branch_policy := deployment_branch_policy c |}.

(** ** The checks of the GitHub feature class ([feature/github.py])

    Strings are sequences of bytes: a Python string is taken in its UTF-8
    encoding, in which a character outside ASCII is made of bytes that no
    class below contains. *)

Module GitHubFeature.

Import Stdlib.Strings.Ascii.

(** The characters of a string, in order. *)
Fixpoint characters (s : string) : list ascii :=
  match s with
  | EmptyString => []
  | String a s' => a :: characters s'
  end.

Definition newline : string := String "010"%char EmptyString.

(** The class [[-a-z0-9]]. *)
Definition label_character (a : ascii) : bool :=
  bool_decide (a = "-"%char)
  || (Stdlib.Strings.Ascii.leb "a"%char a && Stdlib.Strings.Ascii.leb a "z"%char)
  || (Stdlib.Strings.Ascii.leb "0"%char a && Stdlib.Strings.Ascii.leb a "9"%char).

(** Up to [n] characters of the class, as many as there are: what is left of
    the string after them. *)
Fixpoint skip_label_characters (n : nat) (s : string) : string :=
  match n, s with
  | S n', String a s' =>
      if label_character a then skip_label_characters n' s' else s
  | _, _ => s
  end.

(** [$]: the end of the string, or just before a newline that ends it. *)
Definition at_end (s : string) : bool :=
  bool_decide (s = EmptyString ∨ s = newline).

(** [re.match(r"^[-a-z0-9]{1,35}$", label)] *)
Definition match_label (label : string) : bool :=
  match label with
  | String a s => label_character a && at_end (skip_label_characters 34 s)
  | EmptyString => false
  end.

Inductive label_error :=
| TooManyLabels
| InvalidLabel (label : string).

Inductive checked :=
| Passed
| Failed (e : label_error).

(** Lines 103-107 of [run]: the loop over the labels. *)
Fixpoint check_each_label (labels : list string) : checked :=
  match labels with
  | [] => Passed
  | label :: rest =>
      if negb (match_label label) then Failed (InvalidLabel label)
      else check_each_label rest
  end.

(** Lines 99-107 of [run]: the checks made on the labels of the file. *)
Definition check_labels (labels : option (list string)) : checked :=
  if truthy labels then
    let labels := default [] labels in
    if bool_decide (20 < length labels)%nat then Failed TooManyLabels
    else check_each_label labels
  else Passed.

(** [string.ascii_uppercase] *)
Definition ascii_uppercase : string := "ABCDEFGHIJKLMNOPQRSTUVWXYZ".

(** [JiraSpaceString.validate_scalar]: the contents, or [None] when the
    validation error is raised. *)
Definition validate_scalar (contents : string) : option string :=
  if negb (forallb
             (λ char, bool_decide (char ∈ characters ascii_uppercase))
             (characters contents))
  then None
  else Some contents.

(** What the pattern of the labels says: 1 to 35 characters of the class,
    then the end of the string or one final newline. *)
Definition label_pattern (label : string) : Prop :=
  ∃ body,
    (label = body ∨ label = body +:+ newline)
    ∧ (1 ≤ String.length body ≤ 35)%nat
    ∧ Forall (λ a, label_character a = true) (characters body).

End GitHubFeature.

(** ** Sample data: a small remote and a few configurations *)

Module Sample.

Definition ok (code : Z) : response :=
  {| status_code := code; message := None; branch_policies := None |}.

(** The user directory knows [alice] only. *)
Definition users : string → option Z :=
  λ login, if decide (login = "alice") then Some 42 else None.

(** A transport whose environment [E] has the branch policies [p1] and [p2],
    that accepts every deletion, answers 303 for an existing policy name and
    422 for a pattern it refuses. *)
Definition transport : list call → call → response := λ _ c,
  match c with
  | GetBranchPolicies _ _ env_name =>
      {| status_code := 200; message := None;
         branch_policies :=
           if decide (env_name = "E")
           then Some [ {| bp_id := 1; bp_name := "p1" |};
                       {| bp_id := 2; bp_name := "p2" |} ]
           else None |}
  | DeleteBranchPolicy _ _ _ _ => ok 204
  | PostBranchPolicy _ _ _ p =>
      if decide (policy_name p = "p1") then ok 303
      else if decide (policy_name p = "bad")
           then {| status_code := 422; message := Some "Validation Failed";
                   branch_policies := None |}
           else ok 200
  | _ => ok 200
  end.

Definition reviewers : list reviewer :=
  [ {| reviewer_type := "User"; reviewer_id := Username "alice" |};
    {| reviewer_type := "User"; reviewer_id := UserId 7 |} ].

Definition six_reviewers : list reviewer :=
  (λ n, {| reviewer_type := "User"; reviewer_id := UserId n |})
    <$> [1; 2; 3; 4; 5; 6].

(** Custom mode with the desired policies [p1] and [p3]. *)
Definition custom : env_config :=
  {| required_reviewers := Some reviewers;
     prevent_self_review := None;
     wait_timer := None;
     deployment_branch_policy :=
       Some {| protected_branches := Some false;
               custom_branch_policies := Some true;
               policies := Some [ {| policy_name := "p1" |};
                                  {| policy_name := "p3" |} ] |} |}.

(** No [deployment_branch_policy] at all. *)
Definition bare : env_config :=
  {| required_reviewers := Some reviewers;
     prevent_self_review := None;
     wait_timer := Some 10;
     deployment_branch_policy := None |}.

Definition six : env_config :=
  {| required_reviewers := Some six_reviewers;
     prevent_self_review := Some false;
     wait_timer := None;
     deployment_branch_policy := None |}.

(** No reviewers, both modes, no policies: three rules violated. *)
Definition invalid : env_config :=
  {| required_reviewers := None;
     prevent_self_review := None;
     wait_timer := None;
     deployment_branch_policy :=
       Some {| protected_branches := Some true;
               custom_branch_policies := Some true;
               policies := None |} |}.

Definition settings : environment :=
  {| environment_wait_timer := 0;
     environment_reviewers := [];
     environment_branch_policy :=
       {| protected_branches_ := true; custom_branch_policies_ := false |} |}.

(** A repository with the environments [A], [B] and [C]. *)
Definition abc : remote :=
  {| remote_environments := <["A" := settings]> (<["B" := settings]> (<["C" := settings]> ∅));
     calls := [] |}.

(** A repository with the environments [E], [B] and [C]. *)
Definition ebc : remote :=
  {| remote_environments := <["E" := settings]> (<["B" := settings]> (<["C" := settings]> ∅));
     calls := [] |}.

Definition fresh : remote := {| remote_environments := ∅; calls := [] |}.

(** [alice] is known, [bob] is not. *)
Definition unknown_reviewer : env_config :=
  {| required_reviewers :=
       Some [ {| reviewer_type := "User"; reviewer_id := UserId 7 |};
              {| reviewer_type := "User"; reviewer_id := Username "alice" |};
              {| reviewer_type := "User"; reviewer_id := Username "bob" |};
              {| reviewer_type := "User"; reviewer_id := UserId 9 |} ];
     prevent_self_review := None;
     wait_timer := None;
     deployment_branch_policy := None |}.

(** A transport whose environment [E] has the branch policies [p0], [p1],
    [p2] and [p4], and that refuses to delete [p2]. *)
Definition refusing : list call → call → response := λ _ c,
  match c with
  | GetBranchPolicies _ _ _ =>
      {| status_code := 200; message := None;
         branch_policies :=
           Some [ {| bp_id := 10; bp_name := "p0" |};
                  {| bp_id := 1; bp_name := "p1" |};
                  {| bp_id := 2; bp_name := "p2" |};
                  {| bp_id := 4; bp_name := "p4" |} ] |}
  | DeleteBranchPolicy _ _ _ i =>
      if decide (i = 2)
      then {| status_code := 403; message := Some "Forbidden";
              branch_policies := None |}
      else ok 204
  | _ => ok 200
  end.

End Sample.

(** * Properties *)

(** ** Dictionaries *)

Lemma get_elem_of {V} (d : dict V) k v : get d k = Some v → (k, v) ∈ d.
Proof.
  induction d as [|[k' v'] d IH]; simpl; [done|].
  case_decide as Hk.
  - intros [= ->]. subst. left.
  - intros. right. auto.
Qed.

Lemma elem_of_get {V} (d : dict V) k v :
  NoDup (keys d) → (k, v) ∈ d → get d k = Some v.
Proof.
  unfold keys. induction d as [|[k' v'] d IH]; simpl.
  - by intros _ ?%elem_of_nil.
  - intros [Hk Hnd]%NoDup_cons [[= -> ->]|Hin]%elem_of_cons.
    + by rewrite decide_True.
    + rewrite decide_False; [auto|].
      intros ->. apply Hk, list_elem_of_fmap. by exists (k, v).
Qed.

Lemma dict_unique {V} (d : dict V) k v1 v2 :
  NoDup (keys d) → (k, v1) ∈ d → (k, v2) ∈ d → v1 = v2.
Proof.
  intros Hnd H1%(elem_of_get _ _ _ Hnd) H2%(elem_of_get _ _ _ Hnd). congruence.
Qed.

(** ** The validator *)

Global Instance violation_inj env_name : Inj (=) (=) (violation env_name).
Proof. intros [] []; simpl; first [done | discriminate]. Qed.

Lemma truthy_flag_set flag c :
  truthy (branch_policy_get flag c) = flag_set flag c.
Proof.
  unfold branch_policy_get, flag_set.
  destruct (deployment_branch_policy c) as [bp|]; simpl; [|done].
  by destruct (flag bp) as [[]|].
Qed.

Lemma truthy_protected_mode c :
  truthy (branch_policy_get protected_branches c) = bool_decide (protected_mode c).
Proof.
  rewrite truthy_flag_set. unfold flag_set.
  destruct (decide (protected_mode c)) as [Hy|Hn].
  - rewrite (bool_decide_eq_true_2 (protected_mode c)) by done.
    destruct Hy as (bp & -> & Hp). by apply bool_decide_eq_true.
  - rewrite (bool_decide_eq_false_2 (protected_mode c)) by done.
    destruct (deployment_branch_policy c) as [bp|] eqn:Hbp; [|done].
    apply bool_decide_eq_false. intros Hp. apply Hn. unfold protected_mode. eauto.
Qed.

(** One round of the loop appends the violations of the environment. *)
Lemma validate_environment_config_violations errors env_name c :
  validate_environment_config errors env_name c = errors ++ violations env_name c.
Proof.
  unfold validate_environment_config, violations, rules.
  rewrite !truthy_flag_set.
  assert (truthy (branch_policy_get policies c)
          = negb match deployment_branch_policy c with
                 | Some {| policies := Some (_ :: _) |} => false
                 | _ => true
                 end) as ->.
  { unfold branch_policy_get.
    destruct (deployment_branch_policy c) as [[? ? [[|? ?]|]]|]; done. }
  rewrite negb_involutive.
  rewrite !filter_cons, filter_nil. simpl violates.
  destruct (flag_set custom_branch_policies c),
    (flag_set protected_branches c),
    (match deployment_branch_policy c with
     | Some {| policies := Some (_ :: _) |} => false
     | _ => true
     end);
    destruct (required_reviewers c) as [[|rv rvs]|]; simpl;
    try case_bool_decide; simpl;
    rewrite <- ?(assoc_L (++)), ?app_nil_r; try reflexivity; simpl in *; lia.
Qed.

Lemma validate_environment_configs_flat_map (environments : dict env_config) :
  validate_environment_configs environments
  = flat_map (λ '(env_name, c), violations env_name c) (items environments).
Proof.
  unfold validate_environment_configs, items.
  enough (∀ errors,
    foldl (λ errors '(env_name, c), validate_environment_config errors env_name c)
      errors environments
    = errors ++ flat_map (λ '(env_name, c), violations env_name c) environments)
    as H by apply (H []).
  induction environments as [|[env_name c] rest IH]; intros errors; simpl.
  - by rewrite app_nil_r.
  - by rewrite IH, validate_environment_config_violations, (assoc_L (++)).
Qed.

Lemma elem_of_violations env_name c x :
  x ∈ violations env_name c ↔ ∃ ru, violates ru c = true ∧ x = violation env_name ru.
Proof.
  unfold violations. rewrite list_elem_of_fmap. split.
  - intros (ru & -> & [Hv _]%list_elem_of_filter). eauto.
  - intros (ru & Hv & ->). exists ru. split; [done|].
    apply list_elem_of_filter. split; [done|]. destruct ru; set_solver.
Qed.

Lemma elem_of_validate_environment_configs (environments : dict env_config) x :
  x ∈ validate_environment_configs environments
  ↔ ∃ env_name c ru,
      (env_name, c) ∈ environments ∧ violates ru c = true
      ∧ x = violation env_name ru.
Proof.
  rewrite validate_environment_configs_flat_map. unfold items.
  rewrite list_elem_of_In, in_flat_map. split.
  - intros ([env_name c] & Hin%list_elem_of_In & Hx%list_elem_of_In).
    apply elem_of_violations in Hx as (ru & ? & ->). eauto 6.
  - intros (env_name & c & ru & Hin & Hv & ->).
    exists (env_name, c). split; [by apply list_elem_of_In|].
    apply list_elem_of_In, elem_of_violations. eauto.
Qed.

(** With unique keys, the entries naming an environment come from its own
    configuration. *)
Lemma violation_elem_of_validate (environments : dict env_config) env_name c ru :
  NoDup (keys environments) →
  (env_name, c) ∈ environments →
  violation env_name ru ∈ validate_environment_configs environments
  ↔ violates ru c = true.
Proof.
  intros Hnd Hin. rewrite elem_of_validate_environment_configs. split.
  - intros (env_name' & c' & ru' & Hin' & Hv & Heq).
    assert (env_name' = env_name) as -> by by injection Heq.
    apply (inj _) in Heq as <-.
    by rewrite (dict_unique _ _ _ _ Hnd Hin Hin').
  - eauto 6.
Qed.

(** C4: for every desired-state mapping the validator returns (it is a total
    function, it raises nothing) the list made, environment after environment,
    of one entry per violated rule, each entry carrying the name of the
    offending environment and the message of the rule; so an entry is in the
    list exactly when some environment of the mapping violates its rule, and
    an environment that violates several rules contributes one entry for each
    of them and none twice. *)
Theorem validate_environment_configs_one_entry_per_violation
    (environments : dict env_config) :
  validate_environment_configs environments
  = flat_map (λ '(env_name, c), violations env_name c) (items environments)
  ∧ (∀ env_name c,
       NoDup (violations env_name c)
       ∧ length (violations env_name c)
         = length (filter (λ ru, violates ru c = true) rules)
       ∧ ∀ ru, violation env_name ru ∈ violations env_name c
               ↔ violates ru c = true)
  ∧ (∀ x, x ∈ validate_environment_configs environments
          ↔ ∃ env_name c ru,
              (env_name, c) ∈ environments ∧ violates ru c = true
              ∧ env x = env_name ∧ error x = rule_message ru).
Proof.
  split; [apply validate_environment_configs_flat_map|]. split.
  - intros env_name c. split; [|split].
    + unfold violations. apply (NoDup_fmap_2 _).
      apply NoDup_filter. unfold rules.
      apply NoDup_ListNoDup. repeat constructor; simpl; intuition discriminate.
    + unfold violations. by rewrite length_fmap.
    + intros ru. rewrite elem_of_violations. split.
      * by intros (ru' & Hv & <-%(inj _)).
      * eauto.
  - intros x. rewrite elem_of_validate_environment_configs.
    split; intros (env_name & c & ru & Hin & Hv & Hx).
    + subst x. eauto 8.
    + destruct Hx as [He Hm]. exists env_name, c, ru.
      split; [done|]. split; [done|]. destruct x; simpl in *. by subst.
Qed.

(** C8: in a mapping with unique keys, the validator flags an environment for
    its number of reviewers exactly when it lists more than 6; one with
    exactly 6 reviewers gets neither of the two entries about reviewers. *)
Theorem validate_flags_more_than_six_reviewers
    (environments : dict env_config) env_name c reviewers :
  NoDup (keys environments) →
  (env_name, c) ∈ environments →
  required_reviewers c = Some reviewers →
  ({| env := env_name; error := too_many_reviewers_message |}
     ∈ validate_environment_configs environments
   ↔ (6 < length reviewers)%nat)
  ∧ (length reviewers = 6%nat →
     ({| env := env_name; error := too_many_reviewers_message |}
        ∉ validate_environment_configs environments)
     ∧ ({| env := env_name; error := reviewers_missing_message |}
          ∉ validate_environment_configs environments)).
Proof.
  intros Hnd Hin Hrv.
  pose proof (violation_elem_of_validate environments env_name c
                AtMostSixReviewers Hnd Hin) as Hsix.
  pose proof (violation_elem_of_validate environments env_name c
                ReviewersPresent Hnd Hin) as Hpresent.
  unfold violation in *. simpl in *. rewrite Hrv in *.
  rewrite bool_decide_eq_true in Hsix. split; [done|].
  intros Hlen. rewrite Hsix, Hpresent. split; [lia|].
  destruct reviewers; [done|]. discriminate.
Qed.

(** C9: an environment whose [protected_branches] and [custom_branch_policies]
    are both true gets the entry about the two modes, whatever its other
    fields and the other environments are. *)
Theorem validate_flags_both_modes
    (environments : dict env_config) env_name c bp :
  (env_name, c) ∈ environments →
  deployment_branch_policy c = Some bp →
  protected_branches bp = Some true →
  custom_branch_policies bp = Some true →
  {| env := env_name; error := both_modes_message |}
    ∈ validate_environment_configs environments.
Proof.
  intros Hin Hbp Hp Hc. apply elem_of_validate_environment_configs.
  exists env_name, c, ExclusiveModes. split; [done|]. split; [|done].
  simpl. unfold flag_set. rewrite Hbp, Hp, Hc. done.
Qed.

(** ** The monad *)

Lemma received_all_nil r : received_all [] r = r.
Proof. destruct r. unfold received_all. simpl. by rewrite app_nil_r. Qed.

Lemma received_all_app cs1 cs2 r :
  received_all cs2 (received_all cs1 r) = received_all (cs1 ++ cs2) r.
Proof. unfold received_all. simpl. by rewrite (assoc_L (++)). Qed.

Lemma received_all_cons c cs r :
  received_all cs (received c r) = received_all (c :: cs) r.
Proof. apply received_all_app. Qed.

Lemma bind_returned {A B} (m : M A) (f : A → M B) r x r' :
  m r = (Returned x, r') → (m ≫= f) r = f x r'.
Proof. unfold mbind, M_bind. by intros ->. Qed.

Lemma bind_raised {A B} (m : M A) (f : A → M B) r e r' :
  m r = (Raised e, r') → (m ≫= f) r = (Raised e, r').
Proof. unfold mbind, M_bind. by intros ->. Qed.

Lemma ret_returned {A} (x : A) r : (mret x : M A) r = (Returned x, r).
Proof. done. Qed.

(** ** The environment deletion pass *)

Lemma lookup_foldl_delete {V} (m : gmap string V) ns k :
  foldl (λ m n, delete n m) m ns !! k = if decide (k ∈ ns) then None else m !! k.
Proof.
  revert m. induction ns as [|n ns IH]; intros m; cbn [foldl].
  - case_decide as Hin; [by apply elem_of_nil in Hin|done].
  - rewrite IH.
    destruct (decide (k ∈ ns)) as [Hin|Hnin],
             (decide (k ∈ n :: ns)) as [Hin'|Hnin']; try done.
    + destruct Hnin'. by right.
    + apply elem_of_cons in Hin' as [->|?]; [apply lookup_delete_eq|done].
    + apply lookup_delete_ne. intros ->. apply Hnin'. left.
Qed.

Lemma for_each_delete_environment ns r :
  for_each ns delete_environment r
  = (Returned (),
     {| remote_environments := foldl (λ m n, delete n m) (remote_environments r) ns;
        calls := calls r ++ (DeleteEnvironment <$> ns) |}).
Proof.
  revert r. induction ns as [|n ns IH]; intros r; simpl.
  - rewrite app_nil_r. by destruct r.
  - erewrite bind_returned by reflexivity. rewrite IH. simpl.
    by rewrite <- (assoc_L (++)).
Qed.

Lemma elem_of_environments_to_be_removed names (desired : dict env_config) n :
  n ∈ environments_to_be_removed names desired ↔ n ∈ names ∧ n ∉ keys desired.
Proof.
  unfold environments_to_be_removed. destruct desired as [|kv desired].
  - simpl. split; [|by intros [? _]]. intros ?. split; [done|].
    apply not_elem_of_nil.
  - change (truthy (kv :: desired)) with true. cbv iota.
    by rewrite elem_of_elements, elem_of_difference, !elem_of_list_to_set.
Qed.

Lemma NoDup_environments_to_be_removed names (desired : dict env_config) :
  NoDup names → NoDup (environments_to_be_removed names desired).
Proof.
  unfold environments_to_be_removed. destruct desired; simpl; [done|].
  intros _. apply NoDup_elements.
Qed.

(** C1: from every state of the remote and for every desired-state mapping,
    the environment deletion pass lists the environments of the repository and
    deletes, each once, exactly those whose name is not a key of the mapping
    (remote names minus desired names); what is left of the remote
    environments are those the mapping names, so no desired environment is
    deleted.  With the empty mapping every remote environment is deleted.
    The directive runs the pass whenever the key is present (alone when the
    mapping is empty) and makes no call when the key is absent. *)
Theorem environment_deletion_pass_deletes_difference
    (desired : dict env_config) (r : remote) :
  (∃ deleted,
     environment_deletion_pass desired r
     = (Returned (),
        {| remote_environments :=
             filter (λ kv, kv.1 ∈ keys desired) (remote_environments r);
           calls := calls r ++ GetEnvironments :: (DeleteEnvironment <$> deleted) |})
     ∧ NoDup deleted
     ∧ (∀ n, n ∈ deleted ↔ n ∈ dom (remote_environments r) ∧ n ∉ keys desired)
     ∧ (desired = [] →
        deleted = (map_to_list (remote_environments r)).*1
        ∧ filter (λ kv, kv.1 ∈ keys desired) (remote_environments r) = ∅))
  ∧ (∀ users transport repo_name gh_token,
       reconcile users transport repo_name gh_token (Some []) r
       = environment_deletion_pass [] r
       ∧ reconcile users transport repo_name gh_token None r = (Returned (), r)).
Proof.
  split.
  - set (names := (map_to_list (remote_environments r)).*1).
    assert (∀ n, n ∈ names ↔ n ∈ dom (remote_environments r)) as Hnames.
    { intros n. unfold names. rewrite elem_of_dom, list_elem_of_fmap. split.
      - intros ([n' v] & -> & Hin%elem_of_map_to_list). by exists v.
      - intros [v Hv]. exists (n, v). split; [done|]. by apply elem_of_map_to_list. }
    exists (environments_to_be_removed names desired).
    split; [|split; [|split]].
    + unfold environment_deletion_pass.
      erewrite bind_returned by reflexivity. fold names.
      rewrite for_each_delete_environment. simpl. f_equal. f_equal.
      * apply map_eq. intros k. rewrite lookup_foldl_delete. symmetry.
        destruct (decide (k ∈ environments_to_be_removed names desired))
          as [Hrm|Hrm].
        -- apply map_lookup_filter_None. right. intros v _. simpl.
           by apply elem_of_environments_to_be_removed in Hrm as [_ ?].
        -- destruct (remote_environments r !! k) as [v|] eqn:Hk.
           ++ apply map_lookup_filter_Some. split; [done|]. simpl.
              destruct (decide (k ∈ keys desired)) as [|Hnk]; [done|].
              destruct Hrm. apply elem_of_environments_to_be_removed.
              split; [|done]. apply Hnames, elem_of_dom. eauto.
           ++ apply map_lookup_filter_None. by left.
      * by rewrite <- (assoc_L (++)).
    + apply NoDup_environments_to_be_removed, NoDup_fst_map_to_list.
    + intros n. by rewrite elem_of_environments_to_be_removed, Hnames.
    + intros ->. split; [done|]. apply map_eq. intros k.
      rewrite lookup_empty. apply map_lookup_filter_None. right.
      intros v _. apply not_elem_of_nil.
  - intros users transport repo_name gh_token. split; [|done].
    unfold reconcile. simpl.
    destruct (environment_deletion_pass [] r) as [[[]|e] r'] eqn:Hpass.
    + unfold upsert_pass, branch_policy_deletion_pass. simpl.
      erewrite bind_returned by reflexivity.
      erewrite bind_returned by exact Hpass. done.
    + unfold upsert_pass. simpl. erewrite bind_returned by reflexivity.
      by erewrite bind_raised by exact Hpass.
Qed.

(** ** The environment upsert *)

Section Upsert.

Variable users : string → option Z.

Lemma get_user_id_resolved username r :
  get_user_id users username r
  = match username with
    | UserId n => (Returned n, r)
    | Username login =>
        (match users login with
         | Some n => Returned n
         | None => Raised (UnknownObjectException login)
         end, received (GetUser login) r)
    end.
Proof.
  destruct username as [n|login]; simpl; [done|].
  unfold get_user. by destruct (users login).
Qed.

(** The list comprehension over the reviewers, when every lookup succeeds. *)
Lemma comprehension_resolved reviewers ids r :
  Forall2 (λ rv i, resolved users (reviewer_id rv) = Some i) reviewers ids →
  comprehension
    (λ reviewer,
       user_id ← get_user_id users (reviewer_id reviewer);
       mret {| type_ := reviewer_type reviewer; id_ := user_id |})
    reviewers r
  = (Returned (zip_with reviewer_params reviewers ids),
     received_all (lookups reviewers) r).
Proof.
  intros Hres. revert r.
  induction Hres as [|rv i reviewers ids Hrv _ IH]; intros r; simpl.
  - by rewrite received_all_nil.
  - unfold lookups. simpl. fold (lookups reviewers).
    destruct (reviewer_id rv) as [n|login] eqn:Hid; simpl in Hrv.
    + injection Hrv as ->.
      erewrite bind_returned by (erewrite bind_returned by reflexivity; reflexivity).
      erewrite bind_returned by apply IH. done.
    + erewrite bind_returned; cycle 1.
      { erewrite bind_returned; [reflexivity|].
        rewrite get_user_id_resolved, Hrv. reflexivity. }
      erewrite bind_returned by apply IH.
      by rewrite ret_returned, received_all_cons.
Qed.

(** Whatever the lookups answer, the comprehension leaves the environments of
    the remote alone, and its outcome and calls do not depend on the remote. *)
Lemma comprehension_frame (reviewers : list reviewer) :
  ∃ (o : outcome (list ReviewerParams)) cs, ∀ r,
    comprehension
      (λ reviewer,
         user_id ← get_user_id users (reviewer_id reviewer);
         mret {| type_ := reviewer_type reviewer; id_ := user_id |})
      reviewers r
    = (o, received_all cs r).
Proof.
  induction reviewers as [|rv reviewers (o & cs & IH)]; simpl.
  - exists (Returned []), []. intros r. by rewrite received_all_nil.
  - destruct (reviewer_id rv) as [n|login].
    + destruct o as [rvs|e].
      * exists (Returned ({| type_ := reviewer_type rv; id_ := n |} :: rvs)), cs.
        intros r.
        erewrite bind_returned by (erewrite bind_returned by reflexivity; reflexivity).
        by erewrite bind_returned by apply IH.
      * exists (Raised e), cs. intros r.
        erewrite bind_returned by (erewrite bind_returned by reflexivity; reflexivity).
        by erewrite bind_raised by apply IH.
    + destruct (users login) as [n|] eqn:Hlogin.
      * destruct o as [rvs|e].
        -- exists (Returned ({| type_ := reviewer_type rv; id_ := n |} :: rvs)),
             (GetUser login :: cs).
           intros r. erewrite bind_returned; cycle 1.
           { erewrite bind_returned; [reflexivity|].
             rewrite get_user_id_resolved, Hlogin. reflexivity. }
           erewrite bind_returned by apply IH.
           by rewrite ret_returned, received_all_cons.
        -- exists (Raised e), (GetUser login :: cs). intros r.
           erewrite bind_returned; cycle 1.
           { erewrite bind_returned; [reflexivity|].
             rewrite get_user_id_resolved, Hlogin. reflexivity. }
           erewrite bind_raised by apply IH. by rewrite received_all_cons.
      * exists (Raised (UnknownObjectException login)), [GetUser login].
        intros r. erewrite bind_raised; [reflexivity|].
        erewrite bind_raised; [reflexivity|].
        rewrite get_user_id_resolved, Hlogin. reflexivity.
Qed.

(** The upsert of an environment whose reviewers all resolve. *)
Lemma create_deployment_environment_resolved env_name c reviewers ids r :
  required_reviewers c = Some reviewers →
  Forall2 (λ rv i, resolved users (reviewer_id rv) = Some i) reviewers ids →
  let wait := default 5 (wait_timer c) in
  let sent := zip_with reviewer_params reviewers ids in
  let params :=
    {| protected_branches_ :=
         default true (branch_policy_get protected_branches c);
       custom_branch_policies_ :=
         default false (branch_policy_get custom_branch_policies c) |} in
  create_deployment_environment users env_name c r
  = (Returned (),
     {| remote_environments :=
          <[env_name := {| environment_wait_timer := wait;
                           environment_reviewers := sent;
                           environment_branch_policy := params |}]>
            (remote_environments r);
        calls := calls r ++ lookups reviewers
                   ++ [CreateEnvironment env_name wait sent params] |}).
Proof.
  intros Hrv Hres. simpl. unfold create_deployment_environment. rewrite Hrv.
  erewrite bind_returned by by apply comprehension_resolved.
  unfold create_environment, with_environments, received, received_all. simpl.
  by rewrite (assoc_L (++)).
Qed.

(** C6: a reviewer given by an integer id is resolved to that integer without
    any call, one given by a user name is resolved by a user-lookup call to
    the id of that user (the lookup raising when the user is unknown); and when
    every reviewer of an environment resolves, the upsert first makes the
    lookups of the user names, in order, and then sends the create-or-update
    call with the resolved ids, integer ids unchanged. *)
Theorem reviewer_ids_resolved_before_upsert env_name c reviewers ids r :
  required_reviewers c = Some reviewers →
  Forall2 (λ rv i, resolved users (reviewer_id rv) = Some i) reviewers ids →
  (∀ n r', get_user_id users (UserId n) r' = (Returned n, r'))
  ∧ (∀ login r',
       get_user_id users (Username login) r'
       = (match users login with
          | Some n => Returned n
          | None => Raised (UnknownObjectException login)
          end, received (GetUser login) r'))
  ∧ (∀ i rv n, reviewers !! i = Some rv → reviewer_id rv = UserId n →
               ids !! i = Some n)
  ∧ (∀ i rv login, reviewers !! i = Some rv → reviewer_id rv = Username login →
                   ids !! i = users login ∧ GetUser login ∈ lookups reviewers)
  ∧ ∃ r',
      create_deployment_environment users env_name c r = (Returned (), r')
      ∧ calls r'
        = calls r ++ lookups reviewers
            ++ [CreateEnvironment env_name (default 5 (wait_timer c))
                  (zip_with reviewer_params reviewers ids)
                  {| protected_branches_ :=
                       default true (branch_policy_get protected_branches c);
                     custom_branch_policies_ :=
                       default false
                         (branch_policy_get custom_branch_policies c) |}]
      ∧ (id_ <$> zip_with reviewer_params reviewers ids) = ids.
Proof.
  intros Hrv Hres.
  split; [intros; apply (get_user_id_resolved (UserId _))|].
  split; [intros; apply (get_user_id_resolved (Username _))|].
  split; [|split].
  - intros i rv n Hi Hid.
    destruct (Forall2_lookup_l _ _ _ _ _ Hres Hi) as (j & -> & Hj).
    by rewrite Hid in Hj.
  - intros i rv login Hi Hid.
    destruct (Forall2_lookup_l _ _ _ _ _ Hres Hi) as (j & Hj & Hr).
    rewrite Hid in Hr. simpl in Hr. split; [congruence|].
    unfold lookups. apply list_elem_of_omap. exists rv.
    split; [by eapply list_elem_of_lookup_2|]. by rewrite Hid.
  - eexists. split; [by apply create_deployment_environment_resolved|].
    split; [done|].
    clear Hrv. induction Hres; simpl; [done|]. by f_equal.
Qed.

Lemma create_deployment_environment_again env_name c r :
  let once := create_deployment_environment users env_name c r in
  let again := create_deployment_environment users env_name c once.2 in
  again.1 = once.1
  ∧ remote_environments again.2 = remote_environments once.2.
Proof.
  simpl. unfold create_deployment_environment.
  destruct (required_reviewers c) as [reviewers|]; [|done].
  destruct (comprehension_frame reviewers) as (o & cs & Hframe).
  destruct o as [rvs|e].
  - erewrite (bind_returned _ _ r) by apply Hframe.
    unfold create_environment at 2. simpl.
    erewrite bind_returned by apply Hframe.
    unfold create_environment. simpl. split; [done|].
    apply insert_insert_eq.
  - erewrite (bind_raised _ _ r) by apply Hframe. simpl.
    by erewrite bind_raised by apply Hframe.
Qed.

(** C5: the upsert is idempotent.  Applied again with the same name and
    configuration to the remote the first application left, it ends the same
    way and leaves the same remote environments, those of the first
    application; and so does the upsert run twice in a row. *)
Theorem create_deployment_environment_idempotent env_name c r :
  let once := create_deployment_environment users env_name c r in
  let again := create_deployment_environment users env_name c once.2 in
  let twice :=
    (create_deployment_environment users env_name c;;
     create_deployment_environment users env_name c) r in
  again.1 = once.1
  ∧ remote_environments again.2 = remote_environments once.2
  ∧ twice.1 = once.1
  ∧ remote_environments twice.2 = remote_environments once.2.
Proof.
  pose proof (create_deployment_environment_again env_name c r) as [Ho Hr].
  simpl in *. split; [done|]. split; [done|].
  unfold mbind, M_bind.
  destruct (create_deployment_environment users env_name c r) as [[[]|e] r1];
    [|done].
  simpl in *.
  destruct (create_deployment_environment users env_name c r1) as [o2 r2].
  simpl in *. by subst.
Qed.

End Upsert.

(** ** Branch policies *)

Lemma for_each_app {A} (l1 l2 : list A) (body : A → M unit) r :
  for_each (l1 ++ l2) body r = (for_each l1 body;; for_each l2 body) r.
Proof.
  revert r. induction l1 as [|x l1 IH]; intros r; simpl; [done|].
  unfold mbind, M_bind in *. destruct (body x r) as [[[]|e] r1]; [|done].
  apply IH.
Qed.

Lemma desired_policy_names_get c :
  policy_name <$> default [] (branch_policy_get policies c)
  = desired_policy_names c.
Proof.
  unfold branch_policy_get, desired_policy_names.
  by destruct (deployment_branch_policy c) as [[? ? [ps|]]|].
Qed.

Section Policies.

Variable transport : list call → call → response.
Variables repo_name token env_name : string.


Lemma accepted_interval rsp : accepted rsp = true ↔ 200 ≤ status_code rsp ≤ 303.
Proof. unfold accepted. apply bool_decide_eq_true. Qed.

Lemma for_each_post_succeeds ps r :
  creations_succeed transport (calls r) repo_name token env_name ps →
  for_each ps (post_branch_policy transport repo_name token env_name) r
  = (Returned (),
     received_all (PostBranchPolicy repo_name token env_name <$> ps) r).
Proof.
  revert r. induction ps as [|p ps IH]; intros r; simpl.
  - intros _. by rewrite received_all_nil.
  - intros [Hok Hrest]. apply accepted_interval in Hok.
    erewrite bind_returned; cycle 1.
    { unfold post_branch_policy. erewrite bind_returned by reflexivity.
      rewrite Hok. reflexivity. }
    rewrite IH by done. by rewrite received_all_cons.
Qed.

Lemma for_each_post_rejected pre p post r :
  let rsp :=
    transport (calls r ++ (PostBranchPolicy repo_name token env_name <$> pre))
      (PostBranchPolicy repo_name token env_name p) in
  creations_succeed transport (calls r) repo_name token env_name pre →
  ¬ (200 ≤ status_code rsp ≤ 303) →
  for_each (pre ++ p :: post)
    (post_branch_policy transport repo_name token env_name) r
  = (Raised (RequestError (message rsp) (status_code rsp)),
     received_all (PostBranchPolicy repo_name token env_name <$> pre ++ [p]) r).
Proof.
  intros rsp Hpre Hrej. rewrite for_each_app.
  erewrite bind_returned by by apply for_each_post_succeeds.
  simpl. erewrite bind_raised; [reflexivity|].
  unfold post_branch_policy. erewrite bind_returned by reflexivity. simpl.
  fold rsp. rewrite <- accepted_interval in Hrej.
  apply not_true_is_false in Hrej. rewrite Hrej. simpl. unfold raise.
  unfold received. by rewrite fmap_app, received_all_app.
Qed.

Lemma create_deployment_branch_policy_for_each ps r :
  create_deployment_branch_policy transport repo_name token env_name (Some ps) r
  = for_each ps (post_branch_policy transport repo_name token env_name) r.
Proof. unfold create_deployment_branch_policy. by destruct ps. Qed.

(** C7: the branch policies are created in order, each by one call.  A
    response whose status code is outside the closed interval from 200 to 303
    raises an error that carries the message and the status code of that
    response; no later policy is posted and whatever follows the creation in
    the run is not executed.  While the status codes are inside the interval
    nothing is raised and the pass goes on with the next policy, returning
    normally when all are accepted. *)
Theorem create_deployment_branch_policy_status_check :
  (∀ pre p post r,
     let rsp :=
       transport (calls r ++ (PostBranchPolicy repo_name token env_name <$> pre))
         (PostBranchPolicy repo_name token env_name p) in
     creations_succeed transport (calls r) repo_name token env_name pre →
     ¬ (200 ≤ status_code rsp ≤ 303) →
     ∀ rest_of_run : M unit,
       (create_deployment_branch_policy transport repo_name token env_name
          (Some (pre ++ p :: post));; rest_of_run) r
       = (Raised (RequestError (message rsp) (status_code rsp)),
          received_all
            (PostBranchPolicy repo_name token env_name <$> pre ++ [p]) r))
  ∧ (∀ ps r,
       creations_succeed transport (calls r) repo_name token env_name ps →
       create_deployment_branch_policy transport repo_name token env_name
         (Some ps) r
       = (Returned (),
          received_all (PostBranchPolicy repo_name token env_name <$> ps) r)).
Proof.
  split.
  - intros pre p post r rsp Hpre Hrej rest_of_run.
    apply bind_raised. rewrite create_deployment_branch_policy_for_each.
    by apply for_each_post_rejected.
  - intros ps r Hps. rewrite create_deployment_branch_policy_for_each.
    by apply for_each_post_succeeds.
Qed.

End Policies.

Section Deletion.

Variable transport : list call → call → response.
Variables repo_name token : string.


Lemma delete_if_stale_stale names env_name p :
  bp_name p ∉ names →
  delete_if_stale transport repo_name token names env_name p
  = delete_deployment_branch_policy transport repo_name token env_name (bp_id p).
Proof.
  intros. unfold delete_if_stale. by rewrite bool_decide_eq_true_2.
Qed.

Lemma delete_if_stale_kept names env_name p :
  ¬ (bp_name p ∉ names) →
  delete_if_stale transport repo_name token names env_name p = mret ().
Proof.
  intros. unfold delete_if_stale. by rewrite bool_decide_eq_false_2.
Qed.

Lemma delete_deployment_branch_policy_run env_name i r :
  let c := DeleteBranchPolicy repo_name token env_name i in
  let rsp := transport (calls r) c in
  delete_deployment_branch_policy transport repo_name token env_name i r
  = (if decide (status_code rsp = 204) then Returned ()
     else Raised (RequestError (message rsp) (status_code rsp)),
     received c r).
Proof.
  simpl. unfold delete_deployment_branch_policy.
  erewrite bind_returned by reflexivity. unfold validate_204_response.
  case_decide as Hs.
  - by rewrite bool_decide_eq_false_2 by (by intros []).
  - by rewrite bool_decide_eq_true_2 by done.
Qed.

Lemma for_each_delete_succeeds env_name names ps r :
  let ids := bp_id <$> filter (λ p, bp_name p ∉ names) ps in
  deletions_succeed transport (calls r) repo_name token env_name ids →
  for_each ps (delete_if_stale transport repo_name token names env_name) r
  = (Returned (),
     received_all (DeleteBranchPolicy repo_name token env_name <$> ids) r).
Proof.
  simpl. revert r. induction ps as [|p ps IH]; intros r.
  - intros _. simpl. by rewrite received_all_nil.
  - rewrite filter_cons. cbn [for_each].
    destruct (decide (bp_name p ∉ names)) as [Hstale|Hkept].
    + rewrite delete_if_stale_stale by done. cbn [fmap list_fmap deletions_succeed].
      intros [Hok Hrest].
      erewrite bind_returned; cycle 1.
      { rewrite delete_deployment_branch_policy_run. by rewrite decide_True. }
      rewrite IH by done. by rewrite received_all_cons.
    + rewrite delete_if_stale_kept by done. intros Hrest.
      erewrite bind_returned by reflexivity. by apply IH.
Qed.

Lemma for_each_delete_prefix env_name names ps r :
  ∃ ids,
    ids `prefix_of` (bp_id <$> filter (λ p, bp_name p ∉ names) ps)
    ∧ (for_each ps (delete_if_stale transport repo_name token names env_name) r).2
      = received_all (DeleteBranchPolicy repo_name token env_name <$> ids) r.
Proof.
  revert r. induction ps as [|p ps IH]; intros r.
  - exists []. split; [done|]. simpl. by rewrite received_all_nil.
  - rewrite filter_cons. cbn [for_each].
    destruct (decide (bp_name p ∉ names)) as [Hstale|Hkept].
    + rewrite delete_if_stale_stale by done. cbn [fmap list_fmap].
      destruct (decide (status_code
                          (transport (calls r)
                             (DeleteBranchPolicy repo_name token env_name (bp_id p)))
                        = 204)) as [Hok|Hrej].
      * destruct (IH (received (DeleteBranchPolicy repo_name token env_name (bp_id p)) r))
          as (ids & Hpre & Hrun).
        exists (bp_id p :: ids). split; [by apply prefix_cons|].
        erewrite bind_returned; cycle 1.
        { rewrite delete_deployment_branch_policy_run. by rewrite decide_True. }
        rewrite Hrun. by rewrite received_all_cons.
      * exists [bp_id p]. split; [apply prefix_cons, prefix_nil|].
        erewrite bind_raised; cycle 1.
        { rewrite delete_deployment_branch_policy_run. by rewrite decide_False. }
        done.
    + rewrite delete_if_stale_kept by done.
      destruct (IH r) as (ids & Hpre & Hrun). exists ids. split; [done|].
      by erewrite bind_returned by reflexivity.
Qed.

Lemma delete_stale_branch_policies_protected desired env_name c r :
  get desired env_name = Some c →
  protected_mode c →
  delete_stale_branch_policies transport repo_name token desired env_name r
  = (Returned (), r).
Proof.
  intros Hget Hp. unfold delete_stale_branch_policies.
  rewrite Hget, truthy_protected_mode. by rewrite bool_decide_eq_true_2.
Qed.

Lemma delete_stale_branch_policies_unfold desired env_name c r :
  get desired env_name = Some c →
  ¬ protected_mode c →
  delete_stale_branch_policies transport repo_name token desired env_name r
  = for_each (fetched transport (calls r) repo_name token env_name)
      (delete_if_stale transport repo_name token (desired_policy_names c) env_name)
      (received (GetBranchPolicies repo_name token env_name) r).
Proof.
  intros Hget Hp. unfold delete_stale_branch_policies.
  rewrite Hget, truthy_protected_mode. rewrite bool_decide_eq_false_2 by done.
  erewrite bind_returned; cycle 1.
  { unfold get_deployment_policies. erewrite bind_returned by reflexivity.
    reflexivity. }
  by rewrite desired_policy_names_get.
Qed.

Lemma delete_stale_branch_policies_succeeds desired env_name c r :
  get desired env_name = Some c →
  ¬ protected_mode c →
  let get_call := GetBranchPolicies repo_name token env_name in
  let ids :=
    stale_policy_ids c (fetched transport (calls r) repo_name token env_name) in
  deletions_succeed transport (calls r ++ [get_call]) repo_name token env_name ids →
  delete_stale_branch_policies transport repo_name token desired env_name r
  = (Returned (),
     received_all
       (get_call :: (DeleteBranchPolicy repo_name token env_name <$> ids)) r).
Proof.
  intros Hget Hp get_call ids Hok.
  rewrite (delete_stale_branch_policies_unfold _ _ c) by done.
  rewrite for_each_delete_succeeds by done.
  by rewrite received_all_cons.
Qed.

Lemma accepts_deletions_succeed history env_name ids :
  accepts_deletions transport →
  deletions_succeed transport history repo_name token env_name ids.
Proof.
  intros Hacc. revert history. induction ids as [|i ids IH]; intros history; simpl;
    [done|]. split; [apply Hacc|apply IH].
Qed.

Lemma for_each_delete_stale_branch_policies desired rest r :
  accepts_deletions transport →
  Forall (λ '(env_name, c), get desired env_name = Some c) rest →
  for_each (keys rest)
    (delete_stale_branch_policies transport repo_name token desired) r
  = (Returned (),
     received_all (deletion_pass_calls transport (calls r) repo_name token rest) r).
Proof.
  intros Hacc Hrest. revert r.
  induction Hrest as [|[env_name c] rest Hget _ IH]; intros r; simpl.
  - by rewrite received_all_nil.
  - unfold stale_policy_calls.
    destruct (decide (protected_mode c)) as [Hp|Hp].
    + erewrite bind_returned
        by by apply (delete_stale_branch_policies_protected _ _ c).
      rewrite IH. by rewrite app_nil_r.
    + erewrite bind_returned; cycle 1.
      { apply (delete_stale_branch_policies_succeeds _ _ c); [done..|].
        by apply accepts_deletions_succeed. }
      rewrite IH. by rewrite received_all_app.
Qed.

(** C2: in the branch policy deletion pass, an environment in
    [protected_branches] mode causes no call at all, neither fetch nor delete.
    For any other desired environment the pass fetches the remote branch
    policies of that environment and then only ever deletes, by id and in
    order, remote policies whose name is not among the desired policy names;
    when the remote answers these deletions with status 204 it deletes all of
    them, so exactly the stale ones, and the policies whose name is desired
    are left alone.  Over a whole mapping with unique keys, on a remote that
    accepts the deletions, the calls of the pass are these, environment after
    environment. *)
Theorem branch_policy_deletion_pass_deletes_stale :
  (∀ (desired : dict env_config) env_name c r,
     get desired env_name = Some c →
     (protected_mode c →
      delete_stale_branch_policies transport repo_name token desired env_name r
      = (Returned (), r))
     ∧ (¬ protected_mode c →
        let get_call := GetBranchPolicies repo_name token env_name in
        let remote_policies :=
          fetched transport (calls r) repo_name token env_name in
        (∃ ids,
           ids `prefix_of` stale_policy_ids c remote_policies
           ∧ (delete_stale_branch_policies transport repo_name token
                desired env_name r).2
             = received_all
                 (get_call :: (DeleteBranchPolicy repo_name token env_name <$> ids))
                 r)
        ∧ (deletions_succeed transport (calls r ++ [get_call])
             repo_name token env_name (stale_policy_ids c remote_policies) →
           delete_stale_branch_policies transport repo_name token desired env_name r
           = (Returned (),
              received_all
                (get_call ::
                   (DeleteBranchPolicy repo_name token env_name
                      <$> stale_policy_ids c remote_policies))
                r))))
  ∧ (∀ c remote_policies i,
       i ∈ stale_policy_ids c remote_policies
       ↔ ∃ p, p ∈ remote_policies ∧ bp_id p = i
              ∧ bp_name p ∉ desired_policy_names c)
  ∧ (∀ (desired : dict env_config) r,
       NoDup (keys desired) →
       accepts_deletions transport →
       branch_policy_deletion_pass transport repo_name token desired r
       = (Returned (),
          received_all
            (deletion_pass_calls transport (calls r) repo_name token desired) r)).
Proof.
  split; [|split].
  - intros desired env_name c r Hget. split.
    + by apply delete_stale_branch_policies_protected.
    + intros Hp get_call remote_policies. split.
      * rewrite (delete_stale_branch_policies_unfold _ _ c) by done.
        subst get_call remote_policies.
        destruct (for_each_delete_prefix env_name (desired_policy_names c)
                    (fetched transport (calls r) repo_name token env_name)
                    (received (GetBranchPolicies repo_name token env_name) r))
          as (ids & Hpre & Hrun).
        exists ids. split; [done|].
        rewrite Hrun. by rewrite received_all_cons.
      * by apply delete_stale_branch_policies_succeeds.
  - intros c remote_policies i. unfold stale_policy_ids.
    rewrite list_elem_of_fmap. split.
    + intros (p & -> & [Hn Hin]%list_elem_of_filter). eauto.
    + intros (p & Hin & <- & Hn). exists p. split; [done|].
      by apply list_elem_of_filter.
  - intros desired r Hnd Hacc. unfold branch_policy_deletion_pass.
    destruct desired as [|kv desired]; [by rewrite received_all_nil|].
    change (truthy (kv :: desired)) with true. cbv iota.
    apply for_each_delete_stale_branch_policies; [done|].
    apply Forall_forall. intros [env_name c] Hin. by apply elem_of_get.
Qed.

(** C10: for an environment whose configuration has no
    [deployment_branch_policy], the upsert sends [protected_branches] true and
    [custom_branch_policies] false, and the remote stores them; yet the branch
    policy deletion pass does not take the environment for a protected one: it
    fetches its remote branch policies and, no policy being desired, deletes
    every one of them by id when the remote answers the deletions with
    status 204. *)
Theorem absent_branch_policy_is_upserted_protected_but_not_skipped
    (users : string → option Z) (desired : dict env_config) env_name c :
  deployment_branch_policy c = None →
  (∀ reviewers ids r,
     required_reviewers c = Some reviewers →
     Forall2 (λ rv i, resolved users (reviewer_id rv) = Some i) reviewers ids →
     ∃ r' settings,
       create_deployment_environment users env_name c r = (Returned (), r')
       ∧ last (calls r')
         = Some (CreateEnvironment env_name (default 5 (wait_timer c))
                   (zip_with reviewer_params reviewers ids)
                   {| protected_branches_ := true;
                      custom_branch_policies_ := false |})
       ∧ remote_environments r' !! env_name = Some settings
       ∧ environment_branch_policy settings
         = {| protected_branches_ := true; custom_branch_policies_ := false |})
  ∧ ¬ protected_mode c
  ∧ (∀ r,
       get desired env_name = Some c →
       let get_call := GetBranchPolicies repo_name token env_name in
       let remote_policies :=
         fetched transport (calls r) repo_name token env_name in
       stale_policy_ids c remote_policies = bp_id <$> remote_policies
       ∧ (deletions_succeed transport (calls r ++ [get_call])
            repo_name token env_name (bp_id <$> remote_policies) →
          delete_stale_branch_policies transport repo_name token desired env_name r
          = (Returned (),
             received_all
               (get_call ::
                  (DeleteBranchPolicy repo_name token env_name
                     <$> (bp_id <$> remote_policies)))
               r))).
Proof.
  intros Habsent.
  assert (¬ protected_mode c) as Hp.
  { intros (bp & Hbp & _). congruence. }
  assert (∀ ps, stale_policy_ids c ps = bp_id <$> ps) as Hall.
  { intros ps. unfold stale_policy_ids, desired_policy_names. rewrite Habsent.
    f_equal. induction ps as [|p ps IH]; [done|].
    rewrite filter_cons, decide_True by apply not_elem_of_nil. by f_equal. }
  split; [|split; [done|]].
  - intros reviewers ids r Hrv Hres.
    pose proof (create_deployment_environment_resolved users env_name c
                  reviewers ids r Hrv Hres) as Hrun.
    simpl in Hrun. unfold branch_policy_get in Hrun. rewrite Habsent in Hrun.
    simpl in Hrun. eexists _, _. split; [exact Hrun|]. simpl.
    split; [by rewrite (assoc_L (++)), last_snoc|].
    split; [apply lookup_insert_eq|done].
  - intros r Hget get_call remote_policies. split; [apply Hall|].
    intros Hok. rewrite <- Hall.
    apply delete_stale_branch_policies_succeeds; [done..|]. by rewrite Hall.
Qed.

End Deletion.

(** ** The directive *)

(** C3: with a non-empty desired-state mapping for which the validator
    returns a non-empty list, the reconciliation raises one exception that
    carries the whole list of violations, and the remote is left as it was: no
    call has reached it, mutating or not.  The same holds for the directive run
    on such a mapping: it never touches the remote, and outside no-op mode,
    with a token that is not empty at hand, it ends with that exception. *)
Theorem invalid_configuration_aborts_before_any_call
    (users : string → option Z) (transport : list call → call → response)
    (desired : dict env_config) (repo_name gh_token : string) (r : remote) :
  desired ≠ [] →
  validate_environment_configs desired ≠ [] →
  let violations_found :=
    InvalidEnvironmentConfigurations (validate_environment_configs desired) in
  reconcile users transport repo_name gh_token (Some desired) r
  = (Raised violations_found, r)
  ∧ ∀ self,
      yaml_environments self = Some desired →
      (deployment_environments users transport self r).2 = r
      ∧ (noop self = false →
         truthy (resolved_token self) = true →
         (deployment_environments users transport self r).1
         = Raised violations_found).
Proof.
  intros Hne Herr violations_found.
  assert (reconcile users transport repo_name gh_token (Some desired) r
          = (Raised violations_found, r)) as Hrun.
  { unfold reconcile. apply bind_raised. unfold upsert_pass. simpl.
    destruct desired as [|kv desired]; [done|].
    change (truthy (kv :: desired)) with true. cbv iota.
    destruct (validate_environment_configs (kv :: desired)) eqn:Hv; done. }
  split; [done|].
  assert (∀ repo_name' gh_token',
            reconcile users transport repo_name' gh_token' (Some desired) r
            = (Raised violations_found, r)) as Hany.
  { intros repo_name' gh_token'. unfold reconcile. apply bind_raised.
    unfold upsert_pass. simpl.
    destruct desired as [|kv desired]; [done|].
    change (truthy (kv :: desired)) with true. cbv iota.
    destruct (validate_environment_configs (kv :: desired)) eqn:Hv; done. }
  intros self Hyaml. unfold deployment_environments, resolved_token.
  rewrite Hyaml.
  destruct (noop self); [split; [done|discriminate]|].
  assert (∀ gh_token' : string,
            let run := (Token gh_token';;
                        reconcile users transport (repository_name self)
                          gh_token' (Some desired)) r in
            run.2 = r
            ∧ (truthy gh_token' = true → run.1 = Raised violations_found))
    as Hsession.
  { intros [|a tok]; simpl.
    - split; [done|discriminate].
    - erewrite bind_returned by reflexivity. by rewrite Hany. }
  destruct (GH_TOKEN self) as [[|a tok]|] eqn:Henv; simpl.
  - destruct (GH_TOKEN_FILE self) as [content|] eqn:Hfile.
    + erewrite bind_returned by reflexivity.
      destruct (Hsession content) as [? Hraise]. split; [done|].
      intros _. apply Hraise.
    + split; [done|]. intros _ [=].
  - erewrite bind_returned by reflexivity.
    destruct (Hsession (String a tok)) as [? Hraise]. split; [done|].
    intros _ _. by apply Hraise.
  - destruct (GH_TOKEN_FILE self) as [content|] eqn:Hfile.
    + erewrite bind_returned by reflexivity.
      destruct (Hsession content) as [? Hraise]. split; [done|].
      intros _. apply Hraise.
    + split; [done|]. intros _ [=].
Qed.

(** * Worked examples *)

(** The validator on the sample configurations. *)
Example validate_sample :
  validate_environment_configs
    [("A", Sample.custom); ("B", Sample.invalid); ("C", Sample.six)]
  = [ {| env := "B"; error := reviewers_missing_message |};
      {| env := "B"; error := both_modes_message |};
      {| env := "B"; error := policies_missing_message |} ].
Proof. reflexivity. Qed.

(** The bounds of the accepted status codes. *)
Example accepted_bounds :
  accepted (Sample.ok 199) = false ∧ accepted (Sample.ok 200) = true
  ∧ accepted (Sample.ok 303) = true ∧ accepted (Sample.ok 304) = false.
Proof. repeat split. Qed.

(** Remote environments A, B and C, desired A and B: only C is deleted. *)
Lemma environment_deletion_pass_abc :
  ∃ deleted,
    environment_deletion_pass [("A", Sample.custom); ("B", Sample.bare)] Sample.abc
    = (Returned (),
       {| remote_environments :=
            filter (λ kv, kv.1 ∈ ["A"; "B"])
              (remote_environments Sample.abc);
          calls := GetEnvironments :: (DeleteEnvironment <$> deleted) |})
    ∧ ∀ n, n ∈ deleted ↔ n = "C".
Proof.
  destruct (environment_deletion_pass_deletes_difference
              [("A", Sample.custom); ("B", Sample.bare)] Sample.abc)
    as [(deleted & Hrun & _ & Hin & _) _].
  exists deleted. split; [exact Hrun|].
  intros n. rewrite Hin. unfold Sample.abc. simpl.
  rewrite !dom_insert_L, dom_empty_L, !elem_of_union, !elem_of_singleton.
  rewrite !not_elem_of_cons. split.
  - intros [[->|[->|[->|Hn]]] (Ha & Hb & _)];
      [done|done|done|by apply elem_of_empty in Hn].
  - intros ->. split; [auto|]. repeat split; try discriminate.
    apply not_elem_of_nil.
Defined.

(** A configuration with three violated rules stops the run at once. *)
Lemma invalid_configuration_aborts_sample :
  reconcile Sample.users Sample.transport "repo" "token"
    (Some [("A", Sample.custom); ("B", Sample.invalid)]) Sample.abc
  = (Raised
       (InvalidEnvironmentConfigurations
          (validate_environment_configs
             [("A", Sample.custom); ("B", Sample.invalid)])),
     Sample.abc).
Proof.
  refine (proj1 (invalid_configuration_aborts_before_any_call
                   Sample.users Sample.transport
                   [("A", Sample.custom); ("B", Sample.invalid)]
                   "repo" "token" Sample.abc _ _)).
  - discriminate.
  - vm_compute. discriminate.
Defined.

(** [alice] is looked up and sent as 42, the integer 7 is sent as it is. *)
Lemma reviewer_ids_resolved_sample :
  ∃ r',
    create_deployment_environment Sample.users "E" Sample.custom Sample.fresh
    = (Returned (), r')
    ∧ calls r'
      = [ GetUser "alice";
          CreateEnvironment "E" 5
            [ {| type_ := "User"; id_ := 42 |}; {| type_ := "User"; id_ := 7 |} ]
            {| protected_branches_ := false; custom_branch_policies_ := true |} ].
Proof.
  assert (Forall2 (λ rv i, resolved Sample.users (reviewer_id rv) = Some i)
            Sample.reviewers [42; 7]) as Hres
    by (repeat constructor).
  destruct (reviewer_ids_resolved_before_upsert Sample.users "E" Sample.custom
              Sample.reviewers [42; 7] Sample.fresh eq_refl Hres)
    as (_ & _ & _ & _ & r' & Hrun & Hcalls & _).
  exists r'. split; [exact Hrun|exact Hcalls].
Defined.

(** Of the policies p1, p3, bad and p4, the first is answered 303, the second
    200 and the third 422: the error carries that response and p4 is never
    posted. *)
Lemma create_deployment_branch_policy_rejected_sample :
  create_deployment_branch_policy Sample.transport "repo" "token" "E"
    (Some [ {| policy_name := "p1" |}; {| policy_name := "p3" |};
            {| policy_name := "bad" |}; {| policy_name := "p4" |} ])
    Sample.fresh
  = (Raised (RequestError (Some "Validation Failed") 422),
     received_all
       [ PostBranchPolicy "repo" "token" "E" {| policy_name := "p1" |};
         PostBranchPolicy "repo" "token" "E" {| policy_name := "p3" |};
         PostBranchPolicy "repo" "token" "E" {| policy_name := "bad" |} ]
       Sample.fresh).
Proof.
  pose proof (proj1 (create_deployment_branch_policy_status_check
                       Sample.transport "repo" "token" "E")
                [ {| policy_name := "p1" |}; {| policy_name := "p3" |} ]
                {| policy_name := "bad" |} [ {| policy_name := "p4" |} ]
                Sample.fresh) as Hrej.
  simpl in Hrej.
  assert (∀ m : M unit, (m;; mret ()) Sample.fresh = m Sample.fresh) as Hret.
  { intros m. unfold mbind, M_bind. by destruct (m Sample.fresh) as [[[]|?] ?]. }
  rewrite <- Hret. apply Hrej.
  - vm_compute. repeat split; discriminate.
  - vm_compute. intros [_ H]. by apply H.
Defined.

(** Exactly six reviewers: no entry about reviewers. *)
Lemma validate_six_reviewers_sample :
  ({| env := "C"; error := too_many_reviewers_message |}
     ∉ validate_environment_configs [("A", Sample.custom); ("C", Sample.six)])
  ∧ ({| env := "C"; error := reviewers_missing_message |}
       ∉ validate_environment_configs [("A", Sample.custom); ("C", Sample.six)]).
Proof.
  refine (proj2 (validate_flags_more_than_six_reviewers
                   [("A", Sample.custom); ("C", Sample.six)] "C" Sample.six
                   Sample.six_reviewers _ _ eq_refl) eq_refl).
  - apply NoDup_ListNoDup. repeat constructor; simpl; intuition discriminate.
  - right. left.
Defined.

(** Seven reviewers are one too many. *)
Example validate_seven_reviewers_sample :
  validate_environment_configs
    [("C", {| required_reviewers :=
                Some ({| reviewer_type := "User"; reviewer_id := UserId 0 |}
                        :: Sample.six_reviewers);
              prevent_self_review := None;
              wait_timer := None;
              deployment_branch_policy := None |})]
  = [ {| env := "C"; error := too_many_reviewers_message |} ].
Proof. reflexivity. Qed.

(** Both modes at once are flagged, next to whatever else is wrong. *)
Lemma validate_both_modes_sample :
  {| env := "B"; error := both_modes_message |}
    ∈ validate_environment_configs [("A", Sample.custom); ("B", Sample.invalid)].
Proof.
  refine (validate_flags_both_modes
            [("A", Sample.custom); ("B", Sample.invalid)] "B" Sample.invalid
            _ _ eq_refl eq_refl eq_refl).
  right. left.
Defined.

(** Environment E in custom mode, remote policies p1 and p2, desired policies
    p1 and p3: the pass fetches the policies and deletes the id of p2 only. *)
Lemma branch_policy_deletion_sample :
  delete_stale_branch_policies Sample.transport "repo" "token"
    [("E", Sample.custom)] "E" Sample.fresh
  = (Returned (),
     received_all
       [ GetBranchPolicies "repo" "token" "E";
         DeleteBranchPolicy "repo" "token" "E" 2 ]
       Sample.fresh).
Proof.
  refine (proj2 (proj2 (proj1 (branch_policy_deletion_pass_deletes_stale
                                 Sample.transport "repo" "token")
                          [("E", Sample.custom)] "E" Sample.custom Sample.fresh
                          eq_refl) _) _).
  - intros (bp & [= <-] & [=]).
  - vm_compute. auto.
Defined.

(** An environment without [deployment_branch_policy] is upserted as
    protected, and both remote policies of E are deleted. *)
Lemma absent_branch_policy_sample :
  (∃ r',
     create_deployment_environment Sample.users "E" Sample.bare Sample.fresh
     = (Returned (), r')
     ∧ last (calls r')
       = Some (CreateEnvironment "E" 10
                 [ {| type_ := "User"; id_ := 42 |};
                   {| type_ := "User"; id_ := 7 |} ]
                 {| protected_branches_ := true;
                    custom_branch_policies_ := false |}))
  ∧ delete_stale_branch_policies Sample.transport "repo" "token"
      [("E", Sample.bare)] "E" Sample.fresh
    = (Returned (),
       received_all
         [ GetBranchPolicies "repo" "token" "E";
           DeleteBranchPolicy "repo" "token" "E" 1;
           DeleteBranchPolicy "repo" "token" "E" 2 ]
         Sample.fresh).
Proof.
  destruct (absent_branch_policy_is_upserted_protected_but_not_skipped
              Sample.transport "repo" "token" Sample.users
              [("E", Sample.bare)] "E" Sample.bare eq_refl)
    as (Hupsert & _ & Hdelete).
  split.
  - assert (Forall2 (λ rv i, resolved Sample.users (reviewer_id rv) = Some i)
              Sample.reviewers [42; 7]) as Hres
      by (repeat constructor).
    destruct (Hupsert Sample.reviewers [42; 7] Sample.fresh eq_refl Hres)
      as (r' & settings & Hrun & Hlast & _).
    exists r'. split; [exact Hrun|exact Hlast].
  - apply (proj2 (Hdelete Sample.fresh eq_refl)). vm_compute. auto.
Defined.

(** The whole directive on the sample: E and B are desired and C is deleted;
    the stale policy p2 of E goes, and B, which the upsert made a protected
    environment, has its policies fetched all the same. *)
Example deployment_environments_sample :
  calls
    (deployment_environments Sample.users Sample.transport
       {| yaml_environments := Some [("E", Sample.custom); ("B", Sample.bare)];
          noop := false;
          repository_name := "repo";
          GH_TOKEN := Some "token";
          GH_TOKEN_FILE := None |}
       Sample.ebc).2
  = [ GetUser "alice";
      CreateEnvironment "E" 5
        [ {| type_ := "User"; id_ := 42 |}; {| type_ := "User"; id_ := 7 |} ]
        {| protected_branches_ := false; custom_branch_policies_ := true |};
      PostBranchPolicy "repo" "token" "E" {| policy_name := "p1" |};
      PostBranchPolicy "repo" "token" "E" {| policy_name := "p3" |};
      GetUser "alice";
      CreateEnvironment "B" 10
        [ {| type_ := "User"; id_ := 42 |}; {| type_ := "User"; id_ := 7 |} ]
        {| protected_branches_ := true; custom_branch_policies_ := false |};
      GetEnvironments;
      DeleteEnvironment "C";
      GetBranchPolicies "repo" "token" "E";
      DeleteBranchPolicy "repo" "token" "E" 2;
      GetBranchPolicies "repo" "token" "B" ].
Proof. vm_compute. reflexivity. Qed.

(** * Further properties *)

(** ** What a computation may do to the remote *)

Section Steps.

Context (R : relation remote) `{!Reflexive R, !Transitive R}.

Lemma steps_ret {A} (x : A) : steps R (mret x : M A).
Proof. intros r. simpl. reflexivity. Qed.

Lemma steps_raise {A} e : steps R (raise e : M A).
Proof. intros r. simpl. reflexivity. Qed.

Lemma steps_bind {A B} (m : M A) (f : A → M B) :
  steps R m → (∀ x, steps R (f x)) → steps R (m ≫= f).
Proof.
  intros Hm Hf r. specialize (Hm r). unfold mbind, M_bind.
  destruct (m r) as [[x|e] r1]; simpl in *; [|done].
  etrans; [exact Hm|apply Hf].
Qed.

Lemma steps_for_each {A} (l : list A) (body : A → M unit) :
  (∀ x, x ∈ l → steps R (body x)) → steps R (for_each l body).
Proof.
  induction l as [|x l IH]; intros Hbody; simpl; [apply steps_ret|].
  apply steps_bind; [apply Hbody; left|].
  intros _. apply IH. intros y Hy. apply Hbody. by right.
Qed.

Lemma steps_comprehension {A B} (f : A → M B) (l : list A) :
  (∀ x, x ∈ l → steps R (f x)) → steps R (comprehension f l).
Proof.
  induction l as [|x l IH]; intros Hf; simpl; [apply steps_ret|].
  apply steps_bind; [apply Hf; left|]. intros y.
  apply steps_bind; [apply IH; intros z Hz; apply Hf; by right|].
  intros ys. apply steps_ret.
Qed.

End Steps.

Global Instance calls_added_refl P : Reflexive (calls_added P).
Proof. intros r. exists []. by rewrite app_nil_r. Qed.

Global Instance calls_added_trans P : Transitive (calls_added P).
Proof.
  intros r1 r2 r3 (cs1 & H1 & HP1) (cs2 & H2 & HP2). exists (cs1 ++ cs2).
  split; [by rewrite H2, H1, (assoc_L (++))|by apply Forall_app].
Qed.

Global Instance same_environments_refl : Reflexive same_environments.
Proof. by intros r. Qed.

Global Instance same_environments_trans : Transitive same_environments.
Proof. unfold same_environments. intros r1 r2 r3 H1 H2. congruence. Qed.

Global Instance environments_kept_refl : Reflexive environments_kept.
Proof. intros r. unfold environments_kept. reflexivity. Qed.

Global Instance environments_kept_trans : Transitive environments_kept.
Proof. unfold environments_kept. intros r1 r2 r3 H1 H2. by etrans. Qed.

Lemma calls_added_received (P : call → Prop) c r :
  P c → calls_added P r (received c r).
Proof. intros HP. exists [c]. split; [done|]. by apply Forall_singleton. Qed.

Lemma calls_added_mono (P Q : call → Prop) r r' :
  (∀ c, P c → Q c) → calls_added P r r' → calls_added Q r r'.
Proof.
  intros HPQ (cs & Hcs & HP). exists cs. split; [done|].
  by eapply Forall_impl.
Qed.

Lemma steps_mono (R1 R2 : relation remote) {A} (m : M A) :
  (∀ r r', R1 r r' → R2 r r') → steps R1 m → steps R2 m.
Proof. intros HR Hm r. apply HR, Hm. Qed.

Section Calls.

Variable users : string → option Z.
Variable transport : list call → call → response.
Variable P : call → Prop.

Lemma get_user_calls login :
  P (GetUser login) → steps (calls_added P) (get_user users login).
Proof.
  intros HP r. unfold get_user.
  destruct (users login); by apply calls_added_received.
Qed.

Lemma get_user_id_calls username :
  (∀ login, username = Username login → P (GetUser login)) →
  steps (calls_added P) (get_user_id users username).
Proof.
  intros HP. destruct username as [n|login]; simpl.
  - apply (steps_ret _).
  - apply get_user_calls. by apply HP.
Qed.

Lemma create_environment_calls env_name wait reviewers params :
  P (CreateEnvironment env_name wait reviewers params) →
  steps (calls_added P) (create_environment env_name wait reviewers params).
Proof.
  intros HP r. unfold create_environment. simpl.
  exists [CreateEnvironment env_name wait reviewers params].
  split; [done|]. by apply Forall_singleton.
Qed.

Lemma request_calls c : P c → steps (calls_added P) (request transport c).
Proof. intros HP r. by apply calls_added_received. Qed.

Lemma post_branch_policy_calls repo_name token env_name p :
  P (PostBranchPolicy repo_name token env_name p) →
  steps (calls_added P) (post_branch_policy transport repo_name token env_name p).
Proof.
  intros HP. unfold post_branch_policy.
  apply (steps_bind _); [by apply request_calls|].
  intros rsp. destruct (negb (accepted rsp));
    [apply (steps_raise _)|apply (steps_ret _)].
Qed.

Lemma delete_deployment_branch_policy_calls repo_name token env_name i :
  P (DeleteBranchPolicy repo_name token env_name i) →
  steps (calls_added P)
    (delete_deployment_branch_policy transport repo_name token env_name i).
Proof.
  intros HP. unfold delete_deployment_branch_policy.
  apply (steps_bind _); [by apply request_calls|].
  intros rsp. unfold validate_204_response.
  destruct (bool_decide (status_code rsp ≠ 204));
    [apply (steps_raise _)|apply (steps_ret _)].
Qed.

Lemma get_deployment_policies_calls repo_name token env_name :
  P (GetBranchPolicies repo_name token env_name) →
  steps (calls_added P)
    (get_deployment_policies transport repo_name token env_name).
Proof.
  intros HP. unfold get_deployment_policies.
  apply (steps_bind _); [by apply request_calls|].
  intros rsp. apply (steps_ret _).
Qed.

End Calls.

Section Environments.

Variable users : string → option Z.
Variable transport : list call → call → response.

Lemma get_user_id_same_environments username :
  steps same_environments (get_user_id users username).
Proof.
  intros r. destruct username as [n|login]; simpl; [done|].
  unfold get_user. by destruct (users login).
Qed.

Lemma request_same_environments c : steps same_environments (request transport c).
Proof. by intros r. Qed.

Lemma post_branch_policy_same_environments repo_name token env_name p :
  steps same_environments
    (post_branch_policy transport repo_name token env_name p).
Proof.
  unfold post_branch_policy.
  apply (steps_bind _); [apply request_same_environments|].
  intros rsp. destruct (negb (accepted rsp));
    [apply (steps_raise _)|apply (steps_ret _)].
Qed.

Lemma create_deployment_branch_policy_same_environments
    repo_name token env_name ps :
  steps same_environments
    (create_deployment_branch_policy transport repo_name token env_name ps).
Proof.
  unfold create_deployment_branch_policy.
  destruct (negb (truthy ps)); [apply (steps_ret _)|].
  apply (steps_for_each _). intros p _.
  apply post_branch_policy_same_environments.
Qed.

Lemma delete_stale_branch_policies_same_environments
    repo_name token desired env_name :
  steps same_environments
    (delete_stale_branch_policies transport repo_name token desired env_name).
Proof.
  unfold delete_stale_branch_policies.
  destruct (get desired env_name) as [c|]; [|apply (steps_raise _)].
  destruct (truthy (branch_policy_get protected_branches c));
    [apply (steps_ret _)|].
  apply (steps_bind _).
  - unfold get_deployment_policies.
    apply (steps_bind _); [apply request_same_environments|].
    intros rsp. apply (steps_ret _).
  - intros ps. apply (steps_for_each _). intros p _. unfold delete_if_stale.
    destruct (bool_decide _); [|apply (steps_ret _)].
    unfold delete_deployment_branch_policy.
    apply (steps_bind _); [apply request_same_environments|].
    intros rsp. unfold validate_204_response.
    destruct (bool_decide _); [apply (steps_raise _)|apply (steps_ret _)].
Qed.

Lemma branch_policy_deletion_pass_same_environments repo_name token desired :
  steps same_environments
    (branch_policy_deletion_pass transport repo_name token desired).
Proof.
  unfold branch_policy_deletion_pass.
  destruct (truthy desired); [|apply (steps_ret _)].
  apply (steps_for_each _). intros env_name _.
  apply delete_stale_branch_policies_same_environments.
Qed.

Lemma same_environments_kept r r' :
  same_environments r r' → environments_kept r r'.
Proof. unfold same_environments, environments_kept. by intros ->. Qed.

Lemma create_deployment_environment_kept env_name c :
  steps environments_kept (create_deployment_environment users env_name c).
Proof.
  unfold create_deployment_environment. apply (steps_bind _).
  - destruct (required_reviewers c) as [reviewers|]; [|apply (steps_raise _)].
    apply (steps_comprehension _). intros rv _.
    apply (steps_bind _);
      [|intros i; apply (steps_ret _)].
    eapply steps_mono; [apply same_environments_kept|].
    apply get_user_id_same_environments.
  - intros reviewers r. unfold environments_kept, create_environment. simpl.
    rewrite dom_insert_L. apply union_subseteq_r.
Qed.

Lemma create_deployment_environment_calls P env_name c :
  (∀ reviewers rv login,
     required_reviewers c = Some reviewers → rv ∈ reviewers →
     reviewer_id rv = Username login → P (GetUser login)) →
  (∀ wait reviewers params,
     P (CreateEnvironment env_name wait reviewers params)) →
  steps (calls_added P) (create_deployment_environment users env_name c).
Proof.
  intros Hlookup Hcreate. unfold create_deployment_environment.
  apply (steps_bind _).
  - destruct (required_reviewers c) as [reviewers|]; [|apply (steps_raise _)].
    apply (steps_comprehension _). intros rv Hrv.
    apply (steps_bind _); [|intros i; apply (steps_ret _)].
    apply get_user_id_calls. intros login Hid. by eapply Hlookup.
  - intros reviewers. by apply create_environment_calls.
Qed.

Lemma upsert_pass_calls repo_name gh_token (desired : dict env_config) :
  steps (calls_added (upsert_pass_call repo_name gh_token desired))
    (upsert_pass users transport repo_name gh_token desired).
Proof.
  unfold upsert_pass.
  destruct (truthy desired); [|apply (steps_ret _)].
  destruct (truthy (validate_environment_configs desired));
    [apply (steps_raise _)|].
  apply (steps_for_each _). intros [env_name c] Hin.
  apply (steps_bind _).
  - apply create_deployment_environment_calls.
    + intros reviewers rv login Hrv Hin' Hid. simpl. eauto 8.
    + intros wait reviewers params. simpl. unfold keys.
      apply list_elem_of_fmap. by exists (env_name, c).
  - intros _. rewrite truthy_flag_set.
    destruct (flag_set custom_branch_policies c) eqn:Hcustom;
      [|apply (steps_ret _)].
    unfold create_deployment_branch_policy.
    destruct (branch_policy_get policies c) as [ps|] eqn:Hps;
      [|apply (steps_ret _)].
    destruct (negb (truthy (Some ps))); [apply (steps_ret _)|].
    apply (steps_for_each _). intros p Hp.
    apply post_branch_policy_calls. simpl. eauto 8.
Qed.

Lemma upsert_pass_kept repo_name gh_token (desired : dict env_config) :
  steps environments_kept
    (upsert_pass users transport repo_name gh_token desired).
Proof.
  unfold upsert_pass.
  destruct (truthy desired); [|apply (steps_ret _)].
  destruct (truthy (validate_environment_configs desired));
    [apply (steps_raise _)|].
  apply (steps_for_each _). intros [env_name c] Hin.
  apply (steps_bind _); [apply create_deployment_environment_kept|].
  intros _. eapply steps_mono; [apply same_environments_kept|].
  destruct (truthy (branch_policy_get custom_branch_policies c));
    [apply create_deployment_branch_policy_same_environments
    |apply (steps_ret _)].
Qed.

(** X3: The upsert pass only upserts: whatever the remote answers and however the
    pass ends, the calls it makes are lookups of users the file names as
    reviewers, creations or updates of environments of the file, and creations
    of policies listed for an environment of the file in custom mode, with the
    repository name and the token given; and every environment the remote had
    is still there afterwards. *)
Theorem upsert_pass_only_upserts repo_name gh_token (desired : dict env_config) :
  steps (calls_added (upsert_pass_call repo_name gh_token desired))
    (upsert_pass users transport repo_name gh_token desired)
  ∧ steps environments_kept
      (upsert_pass users transport repo_name gh_token desired).
Proof. split; [apply upsert_pass_calls|apply upsert_pass_kept]. Qed.

Lemma branch_policy_deletion_pass_calls
    repo_name gh_token (desired : dict env_config) :
  steps (calls_added (policy_deletion_call repo_name gh_token desired))
    (branch_policy_deletion_pass transport repo_name gh_token desired).
Proof.
  unfold branch_policy_deletion_pass.
  destruct (truthy desired); [|apply (steps_ret _)].
  apply (steps_for_each _). intros env_name _.
  unfold delete_stale_branch_policies.
  destruct (get desired env_name) as [c|] eqn:Hget; [|apply (steps_raise _)].
  rewrite truthy_protected_mode. case_bool_decide as Hp; [apply (steps_ret _)|].
  assert (∀ i, policy_deletion_call repo_name gh_token desired
                 (DeleteBranchPolicy repo_name gh_token env_name i)) as Hdel
    by (simpl; eauto).
  apply (steps_bind _).
  - apply get_deployment_policies_calls. simpl. eauto.
  - intros ps. apply (steps_for_each _). intros p _. unfold delete_if_stale.
    destruct (bool_decide _); [|apply (steps_ret _)].
    by apply delete_deployment_branch_policy_calls.
Qed.

(** X4: The branch policy deletion pass never touches an environment in protected
    mode or one the file does not name: whatever the remote answers and
    however the pass ends, each of its calls is a fetch or a deletion of branch
    policies for an environment of the file that is not in protected mode,
    with the repository name and the token given; and the environments of the
    remote are left as they were. *)
Theorem branch_policy_deletion_pass_only_unprotected
    repo_name gh_token (desired : dict env_config) :
  steps (calls_added (policy_deletion_call repo_name gh_token desired))
    (branch_policy_deletion_pass transport repo_name gh_token desired)
  ∧ steps same_environments
      (branch_policy_deletion_pass transport repo_name gh_token desired).
Proof.
  split; [apply branch_policy_deletion_pass_calls
         |apply branch_policy_deletion_pass_same_environments].
Qed.

End Environments.

(** ** More on the validator *)

Lemma valid_config_violates c :
  valid_config c ↔ ∀ ru, violates ru c = false.
Proof.
  unfold valid_config. split.
  - intros ((reviewers & Hrv & Hlen) & Hmodes & Hpolicies) ru.
    destruct ru; simpl.
    + rewrite Hrv. destruct reviewers; [simpl in Hlen; lia|done].
    + rewrite Hrv. apply bool_decide_eq_false. lia.
    + apply not_true_is_false. intros [??]%andb_true_iff. by apply Hmodes.
    + destruct (flag_set custom_branch_policies c) eqn:Hcustom; [|done].
      destruct (Hpolicies eq_refl) as (p & ps & Hps). simpl.
      unfold branch_policy_get in Hps.
      destruct (deployment_branch_policy c) as [[? ? pols]|]; simpl in *;
        [|done].
      by rewrite Hps.
  - intros Hno. split; [|split].
    + pose proof (Hno ReviewersPresent) as Ha.
      pose proof (Hno AtMostSixReviewers) as Hb. simpl in Ha, Hb.
      destruct (required_reviewers c) as [[|rv reviewers]|]; try done.
      apply bool_decide_eq_false in Hb.
      exists (rv :: reviewers). split; [done|]. simpl in *. lia.
    + intros [Hp Hc]. pose proof (Hno ExclusiveModes) as Hm. simpl in Hm.
      by rewrite Hp, Hc in Hm.
    + intros Hc. pose proof (Hno PoliciesPresent) as Hd. simpl in Hd.
      rewrite Hc in Hd. simpl in Hd. unfold branch_policy_get.
      destruct (deployment_branch_policy c) as [[? ? [[|p ps]|]]|];
        simpl in *; try done.
      by exists p, ps.
Qed.

Lemma validate_nil_valid (desired : dict env_config) :
  validate_environment_configs desired = []
  ↔ ∀ env_name c, (env_name, c) ∈ desired → valid_config c.
Proof.
  split.
  - intros Hnone env_name c Hin. apply valid_config_violates. intros ru.
    apply not_true_is_false. intros Hv.
    assert (violation env_name ru ∈ validate_environment_configs desired) as Hx
      by (apply elem_of_validate_environment_configs; eauto 6).
    rewrite Hnone in Hx. by apply elem_of_nil in Hx.
  - intros Hvalid. apply elem_of_nil_inv. intros x Hx.
    apply elem_of_validate_environment_configs
      in Hx as (env_name & c & ru & Hin & Hv & _).
    apply Hvalid in Hin. rewrite valid_config_violates in Hin.
    by rewrite Hin in Hv.
Qed.

(** X1: The validator returns the empty list exactly when every environment of the
    mapping has between 1 and 6 reviewers, does not set both modes, and lists
    at least one policy if it is in custom mode. *)
Theorem validate_accepts_exactly_valid_configs (desired : dict env_config) :
  validate_environment_configs desired = []
  ↔ ∀ env_name c, (env_name, c) ∈ desired → valid_config c.
Proof. apply validate_nil_valid. Qed.

(** ** More on the upsert *)

Section UpsertErrors.

Variable users : string → option Z.

Lemma comprehension_unknown known ids rv login rest r :
  Forall2 (λ rv i, resolved users (reviewer_id rv) = Some i) known ids →
  reviewer_id rv = Username login →
  users login = None →
  comprehension
    (λ reviewer,
       user_id ← get_user_id users (reviewer_id reviewer);
       mret {| type_ := reviewer_type reviewer; id_ := user_id |})
    (known ++ rv :: rest) r
  = (Raised (UnknownObjectException login),
     received_all (lookups known ++ [GetUser login]) r).
Proof.
  intros Hknown Hid Hlogin. revert r.
  induction Hknown as [|rv' i known ids Hrv' _ IH]; intros r; simpl.
  - apply bind_raised. apply bind_raised.
    by rewrite get_user_id_resolved, Hid, Hlogin.
  - unfold lookups. simpl. fold (lookups known).
    destruct (reviewer_id rv') as [n|login'] eqn:Hid'; simpl in Hrv'.
    + erewrite bind_returned
        by (erewrite bind_returned by reflexivity; reflexivity).
      by erewrite bind_raised by apply IH.
    + erewrite bind_returned; cycle 1.
      { erewrite bind_returned; [reflexivity|].
        rewrite get_user_id_resolved, Hrv'. reflexivity. }
      erewrite bind_raised by apply IH. by rewrite received_all_cons.
Qed.

(** X2: A reviewer whose user name the remote does not know aborts the upsert of
    the environment: the lookups of the reviewers before it are made, the
    failed lookup raises, and no create-or-update call is sent, so the remote
    environments are as they were. *)
Theorem unknown_reviewer_aborts_upsert env_name c known ids rv login rest r :
  required_reviewers c = Some (known ++ rv :: rest) →
  Forall2 (λ rv i, resolved users (reviewer_id rv) = Some i) known ids →
  reviewer_id rv = Username login →
  users login = None →
  create_deployment_environment users env_name c r
  = (Raised (UnknownObjectException login),
     received_all (lookups known ++ [GetUser login]) r).
Proof.
  intros Hrv Hknown Hid Hlogin. unfold create_deployment_environment.
  rewrite Hrv. apply bind_raised. by eapply comprehension_unknown.
Qed.

End UpsertErrors.

(** ** A run that returns *)

Lemma bind_returned_inv {A B} (m : M A) (f : A → M B) r y r' :
  (m ≫= f) r = (Returned y, r') →
  ∃ x r1, m r = (Returned x, r1) ∧ f x r1 = (Returned y, r').
Proof.
  unfold mbind, M_bind. destruct (m r) as [[x|e] r1]; [eauto|discriminate].
Qed.

Lemma environment_deletion_pass_environments (desired : dict env_config) r :
  ∃ r',
    environment_deletion_pass desired r = (Returned (), r')
    ∧ remote_environments r'
      = filter (λ kv, kv.1 ∈ keys desired) (remote_environments r)
    ∧ calls_added
        (λ c, c = GetEnvironments
              ∨ ∃ n, c = DeleteEnvironment n ∧ n ∉ keys desired) r r'.
Proof.
  set (names := (map_to_list (remote_environments r)).*1).
  assert (∀ n, n ∈ names ↔ is_Some (remote_environments r !! n)) as Hnames.
  { intros n. unfold names. rewrite list_elem_of_fmap. split.
    - intros ([n' v] & -> & Hin%elem_of_map_to_list). by exists v.
    - intros [v Hv]. exists (n, v). split; [done|]. by apply elem_of_map_to_list. }
  eexists. split; [|split].
  - unfold environment_deletion_pass. erewrite bind_returned by reflexivity.
    fold names. apply for_each_delete_environment.
  - simpl. apply map_eq. intros k. rewrite lookup_foldl_delete. symmetry.
    destruct (decide (k ∈ environments_to_be_removed names desired))
      as [Hrm|Hrm].
    + apply map_lookup_filter_None. right. intros v _. simpl.
      by apply elem_of_environments_to_be_removed in Hrm as [_ ?].
    + destruct (remote_environments r !! k) as [v|] eqn:Hk.
      * apply map_lookup_filter_Some. split; [done|]. simpl.
        destruct (decide (k ∈ keys desired)) as [|Hnk]; [done|].
        destruct Hrm. apply elem_of_environments_to_be_removed.
        split; [|done]. apply Hnames. eauto.
      * apply map_lookup_filter_None. by left.
  - eexists. simpl. split; [by rewrite <- (assoc_L (++))|].
    apply Forall_cons. split; [by left|].
    apply Forall_fmap, Forall_forall. intros n Hn. simpl. right.
    exists n. split; [done|].
    by apply elem_of_environments_to_be_removed in Hn as [_ ?].
Qed.

Section Returns.

Variable users : string → option Z.
Variable transport : list call → call → response.

Lemma comprehension_returned reviewers out r r' :
  comprehension
    (λ reviewer,
       user_id ← get_user_id users (reviewer_id reviewer);
       mret {| type_ := reviewer_type reviewer; id_ := user_id |})
    reviewers r
  = (Returned out, r') →
  ∃ ids,
    Forall2 (λ rv i, resolved users (reviewer_id rv) = Some i) reviewers ids
    ∧ out = zip_with reviewer_params reviewers ids.
Proof.
  revert out r r'. induction reviewers as [|rv reviewers IH];
    intros out r r'; simpl.
  - intros [= <- <-]. by exists [].
  - intros (y & r1 & Hy & (ys & r2 & Hys & [= <- <-])%bind_returned_inv)
      %bind_returned_inv.
    apply bind_returned_inv in Hy as (i & r0 & Hi & [= <- <-]).
    apply IH in Hys as (ids & Hids & ->).
    exists (i :: ids). split; [|done]. constructor; [|done].
    rewrite get_user_id_resolved in Hi.
    destruct (reviewer_id rv) as [n|login]; simpl.
    + by injection Hi as ->.
    + destruct (users login); by simplify_eq.
Qed.

Lemma reviewers_same_environments (reviewers : list reviewer) :
  steps same_environments
    (comprehension
       (λ reviewer,
          user_id ← get_user_id users (reviewer_id reviewer);
          mret {| type_ := reviewer_type reviewer; id_ := user_id |})
       reviewers).
Proof.
  apply (steps_comprehension _). intros rv _.
  apply (steps_bind _); [apply get_user_id_same_environments|].
  intros i. apply (steps_ret _).
Qed.

Lemma create_deployment_environment_returned env_name c r r' :
  create_deployment_environment users env_name c r = (Returned (), r') →
  ∃ reviewers ids,
    required_reviewers c = Some reviewers
    ∧ Forall2 (λ rv i, resolved users (reviewer_id rv) = Some i) reviewers ids
    ∧ remote_environments r'
      = <[env_name := upserted_settings c ids]> (remote_environments r).
Proof.
  unfold create_deployment_environment.
  intros (out & r1 & Hout & Hcreate)%bind_returned_inv.
  destruct (required_reviewers c) as [reviewers|] eqn:Hrv; [|discriminate].
  pose proof (reviewers_same_environments reviewers r) as Hsame.
  unfold same_environments in Hsame.
  rewrite Hout in Hsame. simpl in Hsame.
  apply comprehension_returned in Hout as (ids & Hids & ->).
  exists reviewers, ids. split; [done|]. split; [done|].
  unfold create_environment in Hcreate. injection Hcreate as <-. simpl.
  unfold upserted_settings. rewrite Hrv. simpl. by rewrite Hsame.
Qed.

(** The loop of the upsert pass, when it returns. *)
Lemma upsert_loop_returned repo_name gh_token (l : dict env_config) r r' :
  for_each (items l) (λ '(env_name, env_config),
    create_deployment_environment users env_name env_config;;
    if truthy (branch_policy_get custom_branch_policies env_config)
    then create_deployment_branch_policy transport repo_name gh_token env_name
           (branch_policy_get policies env_config)
    else mret ()) r = (Returned (), r') →
  (∀ k, k ∉ keys l → remote_environments r' !! k = remote_environments r !! k)
  ∧ (∀ k, k ∈ keys l → is_Some (remote_environments r' !! k))
  ∧ (NoDup (keys l) →
     ∀ env_name c, (env_name, c) ∈ l →
       ∃ reviewers ids,
         required_reviewers c = Some reviewers
         ∧ Forall2 (λ rv i, resolved users (reviewer_id rv) = Some i)
             reviewers ids
         ∧ remote_environments r' !! env_name
           = Some (upserted_settings c ids)).
Proof.
  revert r. unfold items, keys.
  induction l as [|[env_name c] l IH]; intros r.
  - simpl. intros [= <-]. split; [done|]. split.
    + by intros k ?%elem_of_nil.
    + by intros _ ? ? ?%elem_of_nil.
  - cbn [for_each].
    intros ([] & r2 & Hhead & Hrest)%bind_returned_inv.
    apply bind_returned_inv in Hhead as ([] & r1 & Hcreate & Hpolicies).
    apply create_deployment_environment_returned
      in Hcreate as (reviewers & ids & Hrv & Hids & Hr1).
    assert (remote_environments r2 = remote_environments r1) as Hr2.
    { pose proof (create_deployment_branch_policy_same_environments transport
                    repo_name gh_token env_name
                    (branch_policy_get policies c) r1) as Hsame.
      destruct (truthy (branch_policy_get custom_branch_policies c)).
      - by rewrite Hpolicies in Hsame.
      - by injection Hpolicies as <-. }
    destruct (IH _ Hrest) as (Hframe & Hsome & Hsettings).
    rewrite Hr2, Hr1 in Hframe. split; [|split].
    + intros k [Hk Hkl]%not_elem_of_cons. rewrite Hframe by done.
      by apply lookup_insert_ne.
    + intros k [->|Hk]%elem_of_cons; [|by apply Hsome].
      destruct (decide (env_name ∈ l.*1)) as [Hin|Hnin]; [by apply Hsome|].
      rewrite Hframe by done. simpl. rewrite lookup_insert_eq. eauto.
    + intros [Hnin Hnd]%NoDup_cons env_name' c' [[= -> ->]|Hin]%elem_of_cons.
      * exists reviewers, ids. split; [done|]. split; [done|].
        rewrite Hframe by done. apply lookup_insert_eq.
      * by apply Hsettings.
Qed.

(** X5: Convergence.  When the reconciliation of a mapping with unique keys
    returns, the environments of the remote are exactly those the mapping
    names, every configuration of the mapping is valid, and each environment
    holds the settings of its configuration: the wait timer (5 when absent),
    the reviewers with their resolved ids, and the two mode flags (protected
    when absent). *)
Theorem reconcile_converges
    repo_name gh_token (desired : dict env_config) r r' :
  NoDup (keys desired) →
  reconcile users transport repo_name gh_token (Some desired) r
  = (Returned (), r') →
  (∀ n, n ∈ dom (remote_environments r') ↔ n ∈ keys desired)
  ∧ (∀ env_name c, (env_name, c) ∈ desired →
       valid_config c
       ∧ ∃ reviewers ids,
           required_reviewers c = Some reviewers
           ∧ Forall2 (λ rv i, resolved users (reviewer_id rv) = Some i)
               reviewers ids
           ∧ remote_environments r' !! env_name
             = Some (upserted_settings c ids)).
Proof.
  intros Hnd. unfold reconcile. simpl.
  intros ([] & r1 & Hupsert & Hrest)%bind_returned_inv.
  apply bind_returned_inv in Hrest as ([] & r2 & Hdelete & Hpolicies).
  destruct (environment_deletion_pass_environments desired r1)
    as (r2' & Hdelete' & Hr2 & _).
  rewrite Hdelete in Hdelete'. injection Hdelete' as <-.
  pose proof (branch_policy_deletion_pass_same_environments transport
                repo_name gh_token desired r2) as Hr'.
  rewrite Hpolicies in Hr'. unfold same_environments in Hr'. simpl in Hr'.
  assert (∀ k, remote_environments r' !! k
               = if decide (k ∈ keys desired)
                 then remote_environments r1 !! k else None) as Hlookup.
  { intros k. rewrite Hr', Hr2. case_decide as Hk.
    - destruct (remote_environments r1 !! k) as [v|] eqn:Hv.
      + by apply map_lookup_filter_Some.
      + apply map_lookup_filter_None. by left.
    - apply map_lookup_filter_None. right. by intros v _. }
  unfold upsert_pass in Hupsert.
  destruct desired as [|kv desired].
  { split; [|by intros ? ? ?%elem_of_nil].
    intros n. rewrite elem_of_dom, Hlookup. split; [|by intros ?%elem_of_nil].
    by intros [? ?]. }
  change (truthy (kv :: desired)) with true in Hupsert. cbv iota in Hupsert.
  destruct (validate_environment_configs (kv :: desired)) eqn:Hvalid;
    [|discriminate].
  change (truthy (@nil config_error)) with false in Hupsert.
  cbv iota in Hupsert.
  apply upsert_loop_returned in Hupsert as (_ & Hsome & Hsettings).
  split.
  - intros n. rewrite elem_of_dom, Hlookup. case_decide as Hn.
    + split; [done|]. intros _. by apply Hsome.
    + split; [by intros [? ?]|done].
  - intros env_name c Hin. split.
    + by eapply validate_nil_valid.
    + destruct (Hsettings Hnd env_name c Hin) as (reviewers & ids & ? & ? & Hs).
      exists reviewers, ids. split; [done|]. split; [done|].
      rewrite Hlookup, decide_True; [done|].
      unfold keys. apply list_elem_of_fmap. by exists (env_name, c).
Qed.

End Returns.

(** ** The directive as a whole *)

Section Directive.

Variable users : string → option Z.
Variable transport : list call → call → response.

Lemma reconcile_requests repo_name gh_token entry :
  steps (calls_added (request_with repo_name gh_token))
    (reconcile users transport repo_name gh_token entry).
Proof.
  unfold reconcile. apply (steps_bind _).
  - eapply steps_mono; [|apply upsert_pass_calls].
    intros r r'. apply calls_added_mono. intros [] Hc; simpl in *; tauto.
  - intros _. destruct (bool_decide (is_Some entry)); [|apply (steps_ret _)].
    apply (steps_bind _).
    + intros r.
      destruct (environment_deletion_pass_environments (default [] entry) r)
        as (r' & -> & _ & Hcalls). simpl.
      eapply calls_added_mono; [|exact Hcalls].
      intros c [->|(n & -> & _)]; exact I.
    + intros _. eapply steps_mono; [|apply branch_policy_deletion_pass_calls].
      intros r r'. apply calls_added_mono. intros [] Hc; simpl in *; tauto.
Qed.

Lemma Token_requests P token : steps (calls_added P) (Token token).
Proof.
  unfold Token. destruct (truthy token);
    [apply (steps_ret _)|apply (steps_raise _)].
Qed.

(** X6: In no-op mode the directive does nothing, whatever the file says.
    Otherwise it needs a token: the environment variable when it is set and
    not empty, else the content of the token file; with neither it raises
    before any call, and so it does when the token file is blank, the session
    refusing an empty token.  Every request the run then makes with
    [requests], that is every creation, fetch and deletion of branch policies,
    names the repository of the feature and carries that token; the calls made
    through PyGithub take neither. *)
Theorem deployment_environments_uses_resolved_token (self : feature) r :
  (noop self = true →
   deployment_environments users transport self r = (Returned (), r))
  ∧ (noop self = false → resolved_token self = None →
     deployment_environments users transport self r
     = (Raised FileNotFoundError, r))
  ∧ (noop self = false → resolved_token self = Some EmptyString →
     deployment_environments users transport self r
     = (Raised AssertionError, r))
  ∧ (∀ token, resolved_token self = Some token →
       calls_added (request_with (repository_name self) token) r
         (deployment_environments users transport self r).2).
Proof.
  unfold deployment_environments, resolved_token. split; [|split; [|split]].
  - by intros ->.
  - intros -> Hnone.
    destruct (truthy (GH_TOKEN self)) eqn:Henv.
    + rewrite Hnone in Henv. discriminate.
    + simpl. by rewrite Hnone.
  - intros -> Hempty.
    destruct (truthy (GH_TOKEN self)) eqn:Henv.
    + rewrite Hempty in Henv. discriminate.
    + simpl. rewrite Hempty. by erewrite bind_returned by reflexivity.
  - intros token Htoken. destruct (noop self); [reflexivity|].
    assert (steps (calls_added (request_with (repository_name self) token))
              (Token token;;
               reconcile users transport (repository_name self) token
                 (yaml_environments self))) as Hrun.
    { apply (steps_bind _); [apply Token_requests|].
      intros _. apply reconcile_requests. }
    destruct (truthy (GH_TOKEN self)) eqn:Henv; simpl.
    + rewrite Htoken. simpl. erewrite bind_returned by reflexivity.
      apply Hrun.
    + rewrite Htoken. erewrite bind_returned by reflexivity. apply Hrun.
Qed.

Lemma bind_ext {A B} (m1 m2 : M A) (f1 f2 : A → M B) r :
  m1 r = m2 r → (∀ x r', f1 x r' = f2 x r') → (m1 ≫= f1) r = (m2 ≫= f2) r.
Proof.
  unfold mbind, M_bind. intros -> Hf. destruct (m2 r) as [[x|e] r1]; [|done].
  apply Hf.
Qed.

Lemma for_each_ext {A} (l : list A) (body1 body2 : A → M unit) r :
  (∀ x r', body1 x r' = body2 x r') → for_each l body1 r = for_each l body2 r.
Proof.
  intros Hbody. revert r. induction l as [|x l IH]; intros r; simpl; [done|].
  apply bind_ext; [apply Hbody|]. intros _ r'. apply IH.
Qed.

Lemma for_each_fmap {A B} (g : A → B) (l : list A) (body : B → M unit) r :
  for_each (g <$> l) body r = for_each l (λ x, body (g x)) r.
Proof.
  revert r. induction l as [|x l IH]; intros r; simpl; [done|].
  apply bind_ext; [done|]. intros _ r'. apply IH.
Qed.

Lemma get_retouched (f : string → env_config → option bool)
    (desired : dict env_config) k :
  get ((λ '(e, c), (e, with_prevent_self_review (f e c) c)) <$> desired) k
  = (λ c, with_prevent_self_review (f k c) c) <$> get desired k.
Proof.
  induction desired as [|[e c] desired IH]; simpl; [done|].
  case_decide as Hk; [by subst|done].
Qed.

(** X7: [prevent_self_review] is ignored: changing it, in any environments and to
    any values, changes neither the result of the validator nor anything of
    the reconciliation, be it the outcome, the calls or the remote
    environments. *)
Theorem prevent_self_review_is_ignored
    (f : string → env_config → option bool)
    repo_name gh_token (desired : dict env_config) r :
  let retouched : dict env_config :=
    (λ '(e, c), (e, with_prevent_self_review (f e c) c)) <$> desired in
  validate_environment_configs retouched = validate_environment_configs desired
  ∧ reconcile users transport repo_name gh_token (Some retouched) r
    = reconcile users transport repo_name gh_token (Some desired) r.
Proof.
  intros retouched.
  assert (validate_environment_configs retouched
          = validate_environment_configs desired) as Hvalidate.
  { rewrite !validate_environment_configs_flat_map. unfold items, retouched.
    clear. induction desired as [|[e c] desired IH]; [done|].
    rewrite fmap_cons. cbn [flat_map]. by rewrite IH. }
  assert (truthy retouched = truthy desired) as Htruthy
    by (unfold retouched; by destruct desired).
  assert (keys retouched = keys desired) as Hkeys.
  { unfold keys, retouched. rewrite <- list_fmap_compose.
    apply list_fmap_ext. by intros _ [e c] _. }
  split; [done|]. unfold reconcile. simpl. apply bind_ext.
  - unfold upsert_pass. rewrite Htruthy, Hvalidate.
    destruct (truthy desired); [|done].
    destruct (truthy (validate_environment_configs desired)); [done|].
    unfold items, retouched. rewrite for_each_fmap.
    apply for_each_ext. by intros [e c] r'.
  - intros _ r1. apply bind_ext.
    + unfold environment_deletion_pass, environments_to_be_removed.
      by rewrite Htruthy, Hkeys.
    + intros _ r2. unfold branch_policy_deletion_pass.
      rewrite Htruthy, Hkeys. destruct (truthy desired); [|done].
      apply for_each_ext. intros k r3. unfold delete_stale_branch_policies.
      unfold retouched. rewrite get_retouched.
      by destruct (get desired k).
Qed.

End Directive.

(** ** More on the deletion passes *)

(** X8: Running the environment deletion pass a second time deletes nothing: it
    only lists the environments again. *)
Theorem environment_deletion_pass_twice (desired : dict env_config) r :
  ∃ r1,
    environment_deletion_pass desired r = (Returned (), r1)
    ∧ environment_deletion_pass desired r1
      = (Returned (), received GetEnvironments r1).
Proof.
  destruct (environment_deletion_pass_environments desired r)
    as (r1 & Hrun & Hr1 & _).
  exists r1. split; [done|].
  unfold environment_deletion_pass. erewrite bind_returned by reflexivity.
  assert (environments_to_be_removed
            (map_to_list (remote_environments r1)).*1 desired = []) as ->;
    [|done].
  apply elem_of_nil_inv. intros n.
  rewrite elem_of_environments_to_be_removed, list_elem_of_fmap.
  intros [([n' v] & -> & Hin%elem_of_map_to_list) Hn].
  rewrite Hr1 in Hin. by apply map_lookup_filter_Some in Hin as [_ ?].
Qed.

Section DeletionErrors.

Variable transport : list call → call → response.
Variables repo_name token : string.

(** X9: The first deletion of a branch policy that is not answered with status
    204 aborts the pass: the error carries the message and the status code of
    that response, and the stale policies after it are not deleted. *)
Theorem failed_deletion_aborts_policy_pass
    (desired : dict env_config) env_name c pre p post r :
  let get_call := GetBranchPolicies repo_name token env_name in
  let deleted := stale_policy_ids c pre in
  let rsp :=
    transport
      (calls r ++ get_call ::
         (DeleteBranchPolicy repo_name token env_name <$> deleted))
      (DeleteBranchPolicy repo_name token env_name (bp_id p)) in
  get desired env_name = Some c →
  ¬ protected_mode c →
  fetched transport (calls r) repo_name token env_name = pre ++ p :: post →
  bp_name p ∉ desired_policy_names c →
  deletions_succeed transport (calls r ++ [get_call])
    repo_name token env_name deleted →
  status_code rsp ≠ 204 →
  delete_stale_branch_policies transport repo_name token desired env_name r
  = (Raised (RequestError (message rsp) (status_code rsp)),
     received_all
       (get_call ::
          (DeleteBranchPolicy repo_name token env_name
             <$> deleted ++ [bp_id p])) r).
Proof.
  intros get_call deleted rsp Hget Hp Hfetched Hstale Hpre Hrej.
  rewrite (delete_stale_branch_policies_unfold _ _ _ _ _ c) by done.
  rewrite Hfetched, for_each_app.
  erewrite bind_returned by by apply for_each_delete_succeeds.
  cbn [for_each]. apply bind_raised.
  rewrite delete_if_stale_stale by done.
  rewrite delete_deployment_branch_policy_run. simpl.
  rewrite <- (assoc_L (++)). simpl. fold get_call deleted rsp.
  rewrite decide_False by done. f_equal.
  unfold received. rewrite !received_all_app. by rewrite fmap_app.
Qed.

(** X10: A fetch whose response has no [branch_policies] entry, whatever its status
    code, is taken for an empty list: nothing is deleted and nothing is
    raised. *)
Theorem fetch_without_policies_deletes_nothing
    (desired : dict env_config) env_name c r :
  get desired env_name = Some c →
  ¬ protected_mode c →
  branch_policies
    (transport (calls r) (GetBranchPolicies repo_name token env_name)) = None →
  delete_stale_branch_policies transport repo_name token desired env_name r
  = (Returned (), received (GetBranchPolicies repo_name token env_name) r).
Proof.
  intros Hget Hp Hnone.
  rewrite (delete_stale_branch_policies_unfold _ _ _ _ _ c) by done.
  unfold fetched. by rewrite Hnone.
Qed.

End DeletionErrors.

(** ** The checks of the GitHub feature class *)

Section Labels.

Import GitHubFeature.
Import Stdlib.Strings.Ascii.

Lemma append_cons a s t : String a s +:+ t = String a (s +:+ t).
Proof. reflexivity. Qed.

Lemma append_empty_l t : EmptyString +:+ t = t.
Proof. reflexivity. Qed.

Lemma append_empty_r s : s +:+ EmptyString = s.
Proof.
  induction s as [|a s IH]; [done|]. rewrite append_cons. by f_equal.
Qed.

Lemma label_character_alphabet a :
  label_character a
  = bool_decide (a ∈ characters "-abcdefghijklmnopqrstuvwxyz0123456789").
Proof. destruct a as [[] [] [] [] [] [] [] []]; reflexivity. Qed.

Lemma skip_label_characters_app n body rest :
  Forall (λ a, label_character a = true) (characters body) →
  (String.length body ≤ n)%nat →
  rest = EmptyString ∨ rest = newline →
  skip_label_characters n (body +:+ rest) = rest.
Proof.
  revert n. induction body as [|a body IH]; intros n Hall Hlen Hrest.
  - rewrite append_empty_l. destruct n; [done|]. by destruct Hrest as [->| ->].
  - rewrite append_cons. simpl in *. destruct n; [lia|]. simpl.
    apply Forall_cons in Hall as [-> Hall]. apply IH; [done|lia|done].
Qed.

Lemma skip_label_characters_split n s :
  ∃ body,
    s = body +:+ skip_label_characters n s
    ∧ (String.length body ≤ n)%nat
    ∧ Forall (λ a, label_character a = true) (characters body).
Proof.
  assert (∀ m t, ∃ body, t = body +:+ t ∧ (String.length body ≤ m)%nat
                 ∧ Forall (λ a, label_character a = true) (characters body))
    as Hnone.
  { intros m t. exists EmptyString. split; [done|].
    split; [simpl; lia|constructor]. }
  revert s. induction n as [|n IH]; intros s; simpl; [apply Hnone|].
  destruct s as [|a s]; [apply Hnone|].
  destruct (label_character a) eqn:Ha; [|apply Hnone].
  destruct (IH s) as (body & Heq & Hlen & Hall).
  exists (String a body). rewrite append_cons. simpl. split; [by f_equal|].
  split; [lia|]. by constructor.
Qed.

Lemma match_label_pattern label : match_label label = true ↔ label_pattern label.
Proof.
  unfold label_pattern. split.
  - destruct label as [|a s]; [done|]. unfold match_label.
    intros [Ha Hend%bool_decide_eq_true]%andb_true_iff.
    destruct (skip_label_characters_split 34 s) as (body & Heq & Hlen & Hall).
    exists (String a body). split; [|split].
    + destruct Hend as [Hend|Hend]; rewrite Hend in Heq.
      * left. f_equal. by rewrite append_empty_r in Heq.
      * right. rewrite append_cons. by f_equal.
    + simpl. lia.
    + by constructor.
  - intros (body & Hlabel & Hlen & Hall).
    destruct body as [|a body]; [simpl in Hlen; lia|].
    simpl in Hlen, Hall. apply Forall_cons in Hall as [Ha Hall].
    assert (label = String a (body +:+ EmptyString)
            ∨ label = String a (body +:+ newline)) as Hcases.
    { destruct Hlabel as [->| ->]; [left|right]; [|by rewrite append_cons].
      by rewrite append_empty_r. }
    destruct Hcases as [->| ->]; unfold match_label; rewrite Ha;
      rewrite skip_label_characters_app by (first [done|lia|auto]);
      apply bool_decide_eq_true_2; auto.
Qed.

(** X13: A label is accepted exactly when it is made of 1 to 35 characters among
    the hyphen, the lower-case ASCII letters and the digits, possibly followed
    by one final newline, which the pattern lets through. *)
Theorem label_accepted_iff_pattern label :
  (match_label label = true ↔ label_pattern label)
  ∧ ∀ a, label_character a = true
         ↔ a ∈ characters "-abcdefghijklmnopqrstuvwxyz0123456789".
Proof.
  split; [apply match_label_pattern|].
  intros a. rewrite label_character_alphabet. apply bool_decide_eq_true.
Qed.

Lemma check_each_label_passed labels :
  Forall label_pattern labels → check_each_label labels = Passed.
Proof.
  induction 1 as [|label labels Hlabel _ IH]; simpl; [done|].
  apply match_label_pattern in Hlabel. by rewrite Hlabel.
Qed.

Lemma check_each_label_failed pre bad post :
  Forall label_pattern pre → ¬ label_pattern bad →
  check_each_label (pre ++ bad :: post) = Failed (InvalidLabel bad).
Proof.
  intros Hpre Hbad. induction Hpre as [|label pre Hlabel _ IH]; simpl.
  - rewrite <- match_label_pattern in Hbad.
    apply not_true_is_false in Hbad. by rewrite Hbad.
  - apply match_label_pattern in Hlabel. by rewrite Hlabel.
Qed.

(** X14: The checks on the labels: more than 20 labels are refused whatever they
    are; up to 20, the first label in order that does not fit the pattern is
    the one reported; and a list of at most 20 fitting labels passes, as do
    the empty list and the missing key. *)
Theorem check_labels_bounds (labels : list string) :
  ((20 < length labels)%nat →
   check_labels (Some labels) = Failed TooManyLabels)
  ∧ ((length labels ≤ 20)%nat →
     ∀ pre bad post,
       labels = pre ++ bad :: post →
       Forall label_pattern pre → ¬ label_pattern bad →
       check_labels (Some labels) = Failed (InvalidLabel bad))
  ∧ ((length labels ≤ 20)%nat → Forall label_pattern labels →
     check_labels (Some labels) = Passed)
  ∧ check_labels None = Passed.
Proof.
  unfold check_labels. split; [|split; [|split; [|done]]].
  - intros Hlen. destruct labels as [|label labels]; [simpl in Hlen; lia|].
    simpl. by rewrite bool_decide_eq_true_2.
  - intros Hlen pre bad post -> Hpre Hbad.
    destruct (pre ++ bad :: post) as [|label labels] eqn:Heq;
      [by destruct pre|].
    cbn [truthy truthy_option truthy_list default from_option]. unfold id.
    rewrite bool_decide_eq_false_2 by lia.
    rewrite <- Heq. by apply check_each_label_failed.
  - intros Hlen Hall. destruct labels as [|label labels]; [done|].
    cbn [truthy truthy_option truthy_list default from_option]. unfold id.
    rewrite bool_decide_eq_false_2 by lia.
    by apply check_each_label_passed.
Qed.

Lemma uppercase_alphabet a :
  bool_decide (a ∈ characters ascii_uppercase)
  = (Stdlib.Strings.Ascii.leb "A"%char a && Stdlib.Strings.Ascii.leb a "Z"%char).
Proof. destruct a as [[] [] [] [] [] [] [] []]; reflexivity. Qed.

Lemma forallb_Forall_true {A} (f g : A → bool) l :
  (∀ a, f a = g a) → forallb f l = true ↔ Forall (λ a, g a = true) l.
Proof.
  intros Hfg. induction l as [|a l IH]; simpl.
  - split; [constructor|done].
  - rewrite andb_true_iff, Forall_cons, IH, Hfg. done.
Qed.

(** X15: The validator of Jira spaces returns the string it is given, unchanged,
    exactly when all its characters are between [A] and [Z]; so it accepts
    the empty string; in every other case it raises. *)
Theorem validate_scalar_uppercase contents :
  (validate_scalar contents = Some contents
   ↔ Forall (λ a, Stdlib.Strings.Ascii.leb "A"%char a
                  && Stdlib.Strings.Ascii.leb a "Z"%char = true)
       (characters contents))
  ∧ (validate_scalar contents = Some contents ∨ validate_scalar contents = None)
  ∧ validate_scalar EmptyString = Some EmptyString.
Proof.
  unfold validate_scalar. split; [|split; [|done]].
  - rewrite <- (forallb_Forall_true _ _ _ uppercase_alphabet).
    destruct (forallb _ _); simpl; split; done.
  - destruct (negb _); auto.
Qed.

End Labels.

(** ** How a run can fail *)

Lemma raises_only_ret E {A} (x : A) : raises_only E (mret x : M A).
Proof. intros r e r' [=]. Qed.

Lemma raises_only_bind E {A B} (m : M A) (f : A → M B) :
  raises_only E m → (∀ x, raises_only E (f x)) → raises_only E (m ≫= f).
Proof.
  intros Hm Hf r e r'. unfold mbind, M_bind.
  destruct (m r) as [[x|e1] r1] eqn:Hmr.
  - apply Hf.
  - intros [= <- <-]. by eapply Hm.
Qed.

Lemma raises_only_for_each E {A} (l : list A) (body : A → M unit) :
  (∀ x, x ∈ l → raises_only E (body x)) → raises_only E (for_each l body).
Proof.
  induction l as [|x l IH]; intros Hbody; simpl; [apply raises_only_ret|].
  apply raises_only_bind; [apply Hbody; left|].
  intros _. apply IH. intros y Hy. apply Hbody. by right.
Qed.

Lemma raises_only_comprehension E {A B} (f : A → M B) (l : list A) :
  (∀ x, raises_only E (f x)) → raises_only E (comprehension f l).
Proof.
  intros Hf. induction l as [|x l IH]; simpl; [apply raises_only_ret|].
  apply raises_only_bind; [apply Hf|]. intros y.
  apply raises_only_bind; [apply IH|]. intros ys. apply raises_only_ret.
Qed.

Lemma get_is_Some {V} (d : dict V) k : k ∈ keys d → is_Some (get d k).
Proof.
  unfold keys. induction d as [|[k' v] d IH]; simpl.
  - by intros ?%elem_of_nil.
  - intros [->|Hk]%elem_of_cons; case_decide; eauto; done.
Qed.

Lemma validate_app_nil (d1 d2 : dict env_config) :
  validate_environment_configs (d1 ++ d2) = []
  ↔ validate_environment_configs d1 = [] ∧ validate_environment_configs d2 = [].
Proof.
  rewrite !validate_environment_configs_flat_map. unfold items.
  rewrite flat_map_app. apply app_nil.
Qed.

Section Failures.

Variable users : string → option Z.
Variable transport : list call → call → response.
Variables repo_name gh_token : string.

(** The upsert pass on a mapping the validator accepts is the loop. *)
Lemma upsert_pass_valid (desired : dict env_config) r :
  validate_environment_configs desired = [] →
  upsert_pass users transport repo_name gh_token desired r
  = for_each (items desired) (λ '(env_name, env_config),
      create_deployment_environment users env_name env_config;;
      if truthy (branch_policy_get custom_branch_policies env_config)
      then create_deployment_branch_policy transport repo_name gh_token env_name
             (branch_policy_get policies env_config)
      else mret ()) r.
Proof.
  intros Hvalid. unfold upsert_pass. rewrite Hvalid.
  by destruct desired.
Qed.

Lemma get_user_id_raises E username :
  (∀ login, E (UnknownObjectException login)) →
  raises_only E (get_user_id users username).
Proof.
  intros HE r e r'. rewrite get_user_id_resolved.
  destruct username as [n|login]; [done|].
  destruct (users login); intros [= <- <-]. apply HE.
Qed.

Lemma request_checks_raise E {A} (check : response → M A) c :
  (∀ rsp, raises_only E (check rsp)) →
  raises_only E (request transport c ≫= check).
Proof.
  intros Hcheck. apply raises_only_bind; [|done]. by intros r e r' [=].
Qed.

(** X11: The reconciliation never fails on a missing list of reviewers or a
    missing configuration: whatever the mapping, it raises neither the
    [TypeError] of iterating over an absent [required_reviewers], which the
    validator has excluded before the first upsert, nor the [AttributeError]
    of an environment name without configuration; and when it raises the
    exception of the validator, that exception carries the list the validator
    returned, which is not empty. *)
Theorem reconcile_no_missing_key_error (entry : option (dict env_config)) :
  raises_only (reconcile_exception (default [] entry))
    (reconcile users transport repo_name gh_token entry).
Proof.
  unfold reconcile. generalize (bool_decide (is_Some entry)).
  generalize (default [] entry). clear entry. intros desired present.
  assert (∀ msg code, reconcile_exception desired (RequestError msg code))
    as Hrequest by done.
  apply raises_only_bind.
  - unfold upsert_pass. destruct (@truthy (dict env_config) _ desired); [|apply raises_only_ret].
    destruct (validate_environment_configs desired) as [|x errors] eqn:Hvalid.
    + apply raises_only_for_each. intros [env_name c] Hin.
      apply raises_only_bind.
      * unfold create_deployment_environment. apply raises_only_bind.
        -- assert (valid_config c) as ((reviewers & -> & _) & _)
             by by eapply validate_nil_valid.
           apply raises_only_comprehension. intros rv.
           apply raises_only_bind; [by apply get_user_id_raises|].
           intros i. apply raises_only_ret.
        -- by intros reviewers r e r' [=].
      * intros _.
        destruct (truthy (branch_policy_get custom_branch_policies c));
          [|apply raises_only_ret].
        unfold create_deployment_branch_policy.
        destruct (negb _); [apply raises_only_ret|].
        apply raises_only_for_each. intros p _. unfold post_branch_policy.
        apply request_checks_raise. intros rsp r e r'.
        destruct (negb (accepted rsp)); intros [= <- <-]. apply Hrequest.
    + intros r e r' [= <- <-]. simpl. by rewrite Hvalid.
  - intros _. destruct present; [|apply raises_only_ret].
    apply raises_only_bind.
    + intros r e r'.
      destruct (environment_deletion_pass_environments desired r)
        as (r1 & -> & _). discriminate.
    + intros _. unfold branch_policy_deletion_pass.
      destruct (@truthy (dict env_config) _ desired); [|apply raises_only_ret].
      apply raises_only_for_each. intros k Hk.
      unfold delete_stale_branch_policies.
      destruct (get_is_Some desired k Hk) as [c ->].
      destruct (truthy _); [apply raises_only_ret|].
      apply raises_only_bind.
      * unfold get_deployment_policies. apply request_checks_raise.
        intros rsp. apply raises_only_ret.
      * intros ps. apply raises_only_for_each. intros p _.
        unfold delete_if_stale. destruct (bool_decide _);
          [|apply raises_only_ret].
        unfold delete_deployment_branch_policy. apply request_checks_raise.
        intros rsp r e r'. unfold validate_204_response.
        destruct (bool_decide _); intros [= <- <-]. apply Hrequest.
Qed.

(** X12: No continuation and no rollback.  When the environments before one of the
    mapping are upserted and the upsert of that one raises, the reconciliation
    raises that exception and ends in that state of the remote: the
    environments after it are not processed and no deletion pass runs. *)
Theorem reconcile_stops_at_first_failure
    (pre : dict env_config) env_name c (post : dict env_config) e r r1 r2 :
  validate_environment_configs (pre ++ (env_name, c) :: post) = [] →
  upsert_pass users transport repo_name gh_token pre r = (Returned (), r1) →
  upsert_pass users transport repo_name gh_token [(env_name, c)] r1
  = (Raised e, r2) →
  reconcile users transport repo_name gh_token
    (Some (pre ++ (env_name, c) :: post)) r
  = (Raised e, r2).
Proof.
  intros Hvalid Hpre Hfail.
  pose proof Hvalid as [Hvpre Hvrest]%validate_app_nil.
  change ((env_name, c) :: post) with ([(env_name, c)] ++ post) in Hvrest.
  apply validate_app_nil in Hvrest as [Hvone _].
  rewrite upsert_pass_valid in Hpre by done.
  rewrite upsert_pass_valid in Hfail by done.
  unfold reconcile. apply bind_raised. simpl.
  rewrite upsert_pass_valid by done. unfold items in *.
  rewrite for_each_app. erewrite bind_returned by exact Hpre.
  cbn [for_each] in *. apply bind_raised.
  unfold mbind, M_bind in Hfail |- *.
  destruct (create_deployment_environment users env_name c r1)
    as [[[]|e1] r1'] eqn:Hcreate; [|done].
  destruct ((if truthy (branch_policy_get custom_branch_policies c)
             then create_deployment_branch_policy transport repo_name gh_token
                    env_name (branch_policy_get policies c)
             else mret ()) r1') as [[[]|e2] r2']; [discriminate|done].
Qed.

End Failures.

(** * Further worked examples *)

(** The second user name is unknown: the integer id needs no lookup, [alice]
    is looked up, the lookup of [bob] raises, and nothing is created. *)
Lemma unknown_reviewer_sample :
  create_deployment_environment Sample.users "E" Sample.unknown_reviewer
    Sample.abc
  = (Raised (UnknownObjectException "bob"),
     received_all [GetUser "alice"; GetUser "bob"] Sample.abc).
Proof.
  refine (unknown_reviewer_aborts_upsert Sample.users "E"
            Sample.unknown_reviewer
            [ {| reviewer_type := "User"; reviewer_id := UserId 7 |};
              {| reviewer_type := "User"; reviewer_id := Username "alice" |} ]
            [7; 42]
            {| reviewer_type := "User"; reviewer_id := Username "bob" |}
            "bob"
            [ {| reviewer_type := "User"; reviewer_id := UserId 9 |} ]
            Sample.abc eq_refl _ eq_refl eq_refl).
  repeat constructor.
Defined.

(** A run that returns: afterwards the remote has the environments E and B
    and no other. *)
Lemma reconcile_converges_sample :
  ∃ r',
    reconcile Sample.users Sample.transport "repo" "token"
      (Some [("E", Sample.custom); ("B", Sample.bare)]) Sample.ebc
    = (Returned (), r')
    ∧ ∀ n, n ∈ dom (remote_environments r') ↔ n ∈ ["E"; "B"].
Proof.
  destruct (reconcile Sample.users Sample.transport "repo" "token"
              (Some [("E", Sample.custom); ("B", Sample.bare)]) Sample.ebc)
    as [o r'] eqn:Hrun.
  assert (o = Returned ()) as ->.
  { change o with (o, r').1. rewrite <- Hrun. vm_compute. reflexivity. }
  exists r'. split; [reflexivity|].
  refine (proj1 (reconcile_converges Sample.users Sample.transport
                   "repo" "token" [("E", Sample.custom); ("B", Sample.bare)]
                   Sample.ebc r' _ Hrun)).
  apply NoDup_ListNoDup. repeat constructor; simpl; intuition discriminate.
Defined.

(** The deletion of p0 is accepted, that of p2 is refused: p4 stays, and the
    error is the one of the refusal. *)
Lemma failed_deletion_sample :
  delete_stale_branch_policies Sample.refusing "repo" "token"
    [("E", Sample.custom)] "E" Sample.fresh
  = (Raised (RequestError (Some "Forbidden") 403),
     received_all
       [ GetBranchPolicies "repo" "token" "E";
         DeleteBranchPolicy "repo" "token" "E" 10;
         DeleteBranchPolicy "repo" "token" "E" 2 ]
       Sample.fresh).
Proof.
  refine (failed_deletion_aborts_policy_pass Sample.refusing "repo" "token"
            [("E", Sample.custom)] "E" Sample.custom
            [ {| bp_id := 10; bp_name := "p0" |};
              {| bp_id := 1; bp_name := "p1" |} ]
            {| bp_id := 2; bp_name := "p2" |}
            [ {| bp_id := 4; bp_name := "p4" |} ]
            Sample.fresh eq_refl _ eq_refl _ _ _).
  - intros (bp & [= <-] & [=]).
  - vm_compute. intros H. by repeat (apply elem_of_cons in H as [H|H];
                                      [discriminate|]); apply elem_of_nil in H.
  - vm_compute. auto.
  - vm_compute. discriminate.
Defined.

(** The sample transport reports no [branch_policies] for B: only the fetch is
    made. *)
Lemma fetch_without_policies_sample :
  delete_stale_branch_policies Sample.transport "repo" "token"
    [("B", Sample.bare)] "B" Sample.fresh
  = (Returned (), received (GetBranchPolicies "repo" "token" "B") Sample.fresh).
Proof.
  refine (fetch_without_policies_deletes_nothing Sample.transport
            "repo" "token" [("B", Sample.bare)] "B" Sample.bare Sample.fresh
            eq_refl _ eq_refl).
  intros (bp & [=] & _).
Defined.

(** An upper-case letter is reported although 21 labels would be too many:
    here there are three. *)
Lemma check_labels_sample :
  GitHubFeature.check_labels (Some ["rocq"; "Proofs"; "x"])
  = GitHubFeature.Failed (GitHubFeature.InvalidLabel "Proofs").
Proof.
  refine (proj1 (proj2 (check_labels_bounds ["rocq"; "Proofs"; "x"]))
            _ ["rocq"] "Proofs" ["x"] eq_refl _ _).
  - simpl. lia.
  - constructor; [|constructor].
    apply match_label_pattern. reflexivity.
  - intros H%match_label_pattern. discriminate.
Defined.

(** With the environment variable empty the token of the file is used. *)
Lemma resolved_token_sample :
  calls_added (request_with "repo" "from-file") Sample.ebc
    (deployment_environments Sample.users Sample.transport
       {| yaml_environments := Some [("E", Sample.custom)];
          noop := false;
          repository_name := "repo";
          GH_TOKEN := Some "";
          GH_TOKEN_FILE := Some "from-file" |}
       Sample.ebc).2.
Proof.
  exact (proj2 (proj2 (proj2 (deployment_environments_uses_resolved_token
                         Sample.users Sample.transport
                         {| yaml_environments := Some [("E", Sample.custom)];
                            noop := false;
                            repository_name := "repo";
                            GH_TOKEN := Some "";
                            GH_TOKEN_FILE := Some "from-file" |}
                         Sample.ebc)))
           "from-file" eq_refl).
Defined.

(** A is upserted, the upsert of E fails on the unknown reviewer: B is never
    reached and C, which the file does not name, is not deleted. *)
Lemma reconcile_stops_sample :
  ∃ r2,
    reconcile Sample.users Sample.transport "repo" "token"
      (Some [("A", Sample.custom); ("E", Sample.unknown_reviewer);
             ("B", Sample.bare)])
      Sample.abc
    = (Raised (UnknownObjectException "bob"), r2)
    ∧ calls r2
      = [ GetUser "alice";
          CreateEnvironment "A" 5
            [ {| type_ := "User"; id_ := 42 |}; {| type_ := "User"; id_ := 7 |} ]
            {| protected_branches_ := false; custom_branch_policies_ := true |};
          PostBranchPolicy "repo" "token" "A" {| policy_name := "p1" |};
          PostBranchPolicy "repo" "token" "A" {| policy_name := "p3" |};
          GetUser "alice";
          GetUser "bob" ].
Proof.
  eexists. split.
  - refine (reconcile_stops_at_first_failure Sample.users Sample.transport
              "repo" "token" [("A", Sample.custom)] "E" Sample.unknown_reviewer
              [("B", Sample.bare)] _ Sample.abc
              (upsert_pass Sample.users Sample.transport "repo" "token"
                 [("A", Sample.custom)] Sample.abc).2
              _ eq_refl _ _).
    + vm_compute. reflexivity.
    + vm_compute. reflexivity.
  - vm_compute. reflexivity.
Defined.

(** The exception of an invalid file is the list the validator returns. *)
Lemma reconcile_no_missing_key_error_sample :
  reconcile_exception [("A", Sample.custom); ("B", Sample.invalid)]
    (InvalidEnvironmentConfigurations
       (validate_environment_configs
          [("A", Sample.custom); ("B", Sample.invalid)])).
Proof.
  refine (reconcile_no_missing_key_error Sample.users Sample.transport
            "repo" "token"
            (Some [("A", Sample.custom); ("B", Sample.invalid)])
            Sample.abc _ Sample.abc _).
  vm_compute. reflexivity.
Defined.
